(** * demopr.py: the convention checker [CodeReviewer]

    A shallow embedding of [src/demopr.py] and the properties of its four
    rules and of its driver [run_checks].

    Conventions of the embedding.
    - A Python [str] is a [string]; a character is a code point below 256.
    - The syntax tree is the one of Python's [ast] module, in two sorts:
      expression-side nodes ([expr]), whose subtrees hold no statement, and
      statement-side nodes ([stmt]).  Node kinds the program never tests for
      are kept as [OtherExpr] and [OtherStmt] with their child nodes in field
      order.  Field-less leaves (expression contexts, operator tokens) are
      left out: they have no children and are of none of the tested kinds.
    - [ast.parse] is not part of the program: a reviewer is built from the
      source text and the tree parsed from it.
    - The methods of [CodeReviewer] mutate [self.issues]; they are written
      in a state monad over the reviewer object. *)

From Stdlib Require Import List String Ascii Bool ZArith Lia Permutation
  Setoid Morphisms.
Import ListNotations.

Local Open Scope string_scope.
Local Open Scope bool_scope.

#[local] Set Warnings "-register-all".

(** ** Strings *)

Module Str.

Definition LF : ascii := "010"%char.
Definition CR : ascii := "013"%char.

(** [sub in s] of Python: [sub] occurs in [s] as a contiguous substring. *)
Fixpoint contains (sub s : string) : bool :=
  String.prefix sub s
  || match s with
     | EmptyString => false
     | String _ r => contains sub r
     end.

(** [any(keyword in s for keyword in keywords)]. *)
Definition contains_any (keywords : list string) (s : string) : bool :=
  existsb (fun keyword => contains keyword s) keywords.

(** The line boundaries of [str.splitlines] among the code points below
    256: LF, VT, FF, CR, FS, GS, RS and NEL. *)
Definition is_linebreak (c : ascii) : bool :=
  let n := nat_of_ascii c in
  ((10 <=? n)%nat && (n <=? 13)%nat)
  || ((28 <=? n)%nat && (n <=? 30)%nat) || (n =? 133)%nat.

(** [splitlines_from cur s]: the lines of [s], where [cur] is the line
    being read ([None] at the start of a line).  A line break ends the
    current line, CR LF counts as one break, and a break at the very end
    of the text opens no further line. *)
Fixpoint splitlines_from (cur : option string) (s : string) : list string :=
  match s with
  | EmptyString =>
      match cur with
      | None => []
      | Some l => [l]
      end
  | String c r =>
      let l := match cur with None => EmptyString | Some l => l end in
      if is_linebreak c then
        if Ascii.eqb c CR then
          match r with
          | String c' r' =>
              if Ascii.eqb c' LF then l :: splitlines_from None r'
              else l :: splitlines_from None r
          | EmptyString => l :: splitlines_from None r
          end
        else l :: splitlines_from None r
      else splitlines_from (Some (l ++ String c EmptyString)) r
  end.

Definition splitlines (s : string) : list string := splitlines_from None s.

(** [l[a:b]] of Python for integer bounds: a negative bound counts from
    the end, and both are clamped to the list. *)
Definition slice {A : Type} (l : list A) (a b : Z) : list A :=
  let n := Z.of_nat (List.length l) in
  let clamp i := if (i <? 0)%Z then Z.max (i + n) 0 else Z.min i n in
  firstn (Z.to_nat (clamp b - clamp a)) (skipn (Z.to_nat (clamp a)) l).

(** [sep.join(ls)]. *)
Definition join (sep : string) (ls : list string) : string :=
  String.concat sep ls.

(** The substring relation that [contains] decides. *)
Definition Contains (sub s : string) : Prop :=
  exists a b, s = a ++ sub ++ b.

End Str.

(** ** Regular expressions, as far as [snake_case_pattern] needs them *)

Module Re.

(** A character set [[...]] is a list of inclusive ranges. *)
Definition charset := list (ascii * ascii).

Inductive item : Type :=
| Bol                       (* ^ *)
| Eol                       (* $ *)
| OneOf (set : charset)     (* [...] *)
| StarOf (set : charset).   (* [...]* *)

Definition pattern := list item.

Definition in_set (set : charset) (c : ascii) : bool :=
  existsb (fun r => (nat_of_ascii (fst r) <=? nat_of_ascii c)%nat
                    && (nat_of_ascii c <=? nat_of_ascii (snd r))%nat) set.

(** Without MULTILINE, [$] matches at the end of the text and also just
    before a line feed that is the last character of the text. *)
Definition at_eol (s : string) : bool :=
  match s with
  | EmptyString => true
  | String c EmptyString => Ascii.eqb c Str.LF
  | _ => false
  end.

(** [match_here p bos s]: does [p] match a prefix of [s]?  [bos] tells
    whether [s] starts at the beginning of the text, where [^] matches.
    The star tries every number of repetitions, as backtracking does. *)
Fixpoint match_here (p : pattern) (bos : bool) (s : string) : bool :=
  match p with
  | [] => true
  | Bol :: p' => bos && match_here p' bos s
  | Eol :: p' => at_eol s && match_here p' bos s
  | OneOf set :: p' =>
      match s with
      | String c r => in_set set c && match_here p' false r
      | EmptyString => false
      end
  | StarOf set :: p' =>
      (fix star (bos : bool) (s : string) {struct s} : bool :=
         match s with
         | String c r =>
             (in_set set c && star false r) || match_here p' bos s
         | EmptyString => match_here p' bos s
         end) bos s
  end.

(** [bool(p.match(s))]: [match] is anchored at the start of the text. *)
Definition matches (p : pattern) (s : string) : bool := match_here p true s.

End Re.

(** [snake_case_pattern = re.compile(r"^[a-z_][a-z0-9_]*$")] *)
Definition snake_case_pattern : Re.pattern :=
  [ Re.Bol;
    Re.OneOf [("a", "z"); ("_", "_")]%char;
    Re.StarOf [("a", "z"); ("0", "9"); ("_", "_")]%char;
    Re.Eol ].

Definition is_snake_case (name : string) : bool :=
  Re.matches snake_case_pattern name.

(** The classifier as the specification words it: the text is not empty,
    its first character is a lowercase letter or an underscore, and every
    other character is a lowercase letter, a digit or an underscore. *)
Module SpecWords.

Definition lower_or_underscore (c : ascii) : bool :=
  Re.in_set [("a", "z"); ("_", "_")]%char c.

Definition lower_digit_or_underscore (c : ascii) : bool :=
  Re.in_set [("a", "z"); ("0", "9"); ("_", "_")]%char c.

Fixpoint all_chars (p : ascii -> bool) (s : string) : bool :=
  match s with
  | EmptyString => true
  | String c r => p c && all_chars p r
  end.

Definition is_valid_identifier (s : string) : bool :=
  match s with
  | EmptyString => false
  | String c r => lower_or_underscore c && all_chars lower_digit_or_underscore r
  end.

End SpecWords.

(** ** The syntax tree of Python's [ast] module *)

Module Ast.

(** Expression-side nodes.  [keyword] and [arguments] nodes and every
    expression kind other than [Name], [Attribute] and [Call] are
    [OtherExpr]. *)
Inductive expr : Type :=
| Name (id : string)
| Attribute (value : expr) (attr : string)
| Call (func : expr) (args : list expr) (keywords : list expr)
| OtherExpr (children : list expr).

(** Statement-side nodes.  Every kind other than [FunctionDef], [Assign],
    [If] and [Try] ([ExceptHandler], [ClassDef], [For], [Return], ...) is
    [OtherStmt]: its child expressions that precede its statement lists,
    its nested statements, and its child expressions that follow them. *)
Inductive stmt : Type :=
| FunctionDef (name : string) (args : expr) (body : list stmt)
    (decorator_list : list expr) (returns : option expr)
    (type_params : list expr) (lineno end_lineno : Z)
| Assign (targets : list expr) (value : expr)
| If (test : expr) (body orelse : list stmt)
| Try (body handlers orelse finalbody : list stmt)
| OtherStmt (head : list expr) (body : list stmt) (tail : list expr).

(** The root that [ast.parse] returns. *)
Inductive mod_ : Type :=
| Module (body : list stmt).

(** Any node of a tree, as [ast.walk] yields them. *)
Inductive node : Type :=
| NMod (m : mod_)
| NStmt (s : stmt)
| NExpr (e : expr).

Definition opt_list {A : Type} (o : option A) : list A :=
  match o with
  | Some a => [a]
  | None => []
  end.

(** [ast.iter_child_nodes]: the child nodes in field order. *)
Definition iter_child_nodes (n : node) : list node :=
  match n with
  | NMod (Module body) => map NStmt body
  | NStmt (FunctionDef _ args body decorator_list returns type_params _ _) =>
      NExpr args :: map NStmt body ++ map NExpr decorator_list
      ++ map NExpr (opt_list returns) ++ map NExpr type_params
  | NStmt (Assign targets value) => map NExpr targets ++ [NExpr value]
  | NStmt (If test body orelse) =>
      NExpr test :: map NStmt body ++ map NStmt orelse
  | NStmt (Try body handlers orelse finalbody) =>
      map NStmt body ++ map NStmt handlers ++ map NStmt orelse
      ++ map NStmt finalbody
  | NStmt (OtherStmt head body tail) =>
      map NExpr head ++ map NStmt body ++ map NExpr tail
  | NExpr (Name _) => []
  | NExpr (Attribute value _) => [NExpr value]
  | NExpr (Call func args keywords) =>
      NExpr func :: map NExpr args ++ map NExpr keywords
  | NExpr (OtherExpr children) => map NExpr children
  end.

Fixpoint expr_size (e : expr) : nat :=
  match e with
  | Name _ => 1
  | Attribute value _ => S (expr_size value)
  | Call func args keywords =>
      S (expr_size func + list_sum (map expr_size args)
         + list_sum (map expr_size keywords))
  | OtherExpr children => S (list_sum (map expr_size children))
  end.

Definition exprs_size (es : list expr) : nat := list_sum (map expr_size es).

Fixpoint stmt_size (s : stmt) : nat :=
  match s with
  | FunctionDef _ args body decorator_list returns type_params _ _ =>
      S (expr_size args + list_sum (map stmt_size body)
         + exprs_size decorator_list + exprs_size (opt_list returns)
         + exprs_size type_params)
  | Assign targets value => S (exprs_size targets + expr_size value)
  | If test body orelse =>
      S (expr_size test + list_sum (map stmt_size body)
         + list_sum (map stmt_size orelse))
  | Try body handlers orelse finalbody =>
      S (list_sum (map stmt_size body) + list_sum (map stmt_size handlers)
         + list_sum (map stmt_size orelse)
         + list_sum (map stmt_size finalbody))
  | OtherStmt head body tail =>
      S (exprs_size head + list_sum (map stmt_size body) + exprs_size tail)
  end.

Definition node_size (n : node) : nat :=
  match n with
  | NMod (Module body) => S (list_sum (map stmt_size body))
  | NStmt s => stmt_size s
  | NExpr e => expr_size e
  end.

(** The number of nodes in the subtrees of a queue. *)
Definition total_size (todo : list node) : nat :=
  list_sum (map node_size todo).

(** The loop of [ast.walk]: take the first node of the queue, put its
    children at the end of the queue, yield the node.  Every turn takes one
    node of the tree, so the number of nodes bounds the number of turns. *)
Fixpoint walk_loop (turns : nat) (todo : list node) : list node :=
  match turns with
  | O => []
  | S turns' =>
      match todo with
      | [] => []
      | n :: rest => n :: walk_loop turns' (rest ++ iter_child_nodes n)
      end
  end.

Definition walk (n : node) : list node := walk_loop (node_size n) [n].

(** The nodes of a subtree, the root first, by structural recursion. *)
Fixpoint subexprs (e : expr) : list expr :=
  e :: match e with
       | Name _ => []
       | Attribute value _ => subexprs value
       | Call func args keywords =>
           subexprs func ++ flat_map subexprs args
           ++ flat_map subexprs keywords
       | OtherExpr children => flat_map subexprs children
       end.

Fixpoint subnodes_stmt (s : stmt) : list node :=
  NStmt s ::
  match s with
  | FunctionDef _ args body decorator_list returns type_params _ _ =>
      map NExpr (subexprs args) ++ flat_map subnodes_stmt body
      ++ map NExpr (flat_map subexprs decorator_list)
      ++ map NExpr (flat_map subexprs (opt_list returns))
      ++ map NExpr (flat_map subexprs type_params)
  | Assign targets value =>
      map NExpr (flat_map subexprs targets) ++ map NExpr (subexprs value)
  | If test body orelse =>
      map NExpr (subexprs test) ++ flat_map subnodes_stmt body
      ++ flat_map subnodes_stmt orelse
  | Try body handlers orelse finalbody =>
      flat_map subnodes_stmt body ++ flat_map subnodes_stmt handlers
      ++ flat_map subnodes_stmt orelse ++ flat_map subnodes_stmt finalbody
  | OtherStmt head body tail =>
      map NExpr (flat_map subexprs head) ++ flat_map subnodes_stmt body
      ++ map NExpr (flat_map subexprs tail)
  end.

Definition subnodes (n : node) : list node :=
  match n with
  | NMod (Module body) => n :: flat_map subnodes_stmt body
  | NStmt s => subnodes_stmt s
  | NExpr e => map NExpr (subexprs e)
  end.

End Ast.

(** ** The reviewer object and its methods *)

Import Ast.

(** The attributes that [__init__] sets. *)
Record CodeReviewer : Type := mkCodeReviewer {
  code : string;
  issues : list string;
  tree : mod_
}.

(** [CodeReviewer(code)], for [parsed] the tree that [ast.parse(code)]
    returns: the issue list starts empty. *)
Definition init (code : string) (parsed : mod_) : CodeReviewer :=
  {| code := code; issues := []; tree := parsed |}.

(** A method body: it reads and updates [self] and returns a value. *)
Definition M (A : Type) : Type := CodeReviewer -> A * CodeReviewer.

Definition ret {A : Type} (a : A) : M A := fun self => (a, self).

Definition bind {A B : Type} (m : M A) (k : A -> M B) : M B :=
  fun self => let (a, self') := m self in k a self'.

Declare Scope method_scope.
Delimit Scope method_scope with method.
Notation "x <- m ;; k" := (bind m (fun x => k))
  (at level 61, m at next level, right associativity) : method_scope.
Notation "m ;; k" := (bind m (fun _ => k))
  (at level 61, right associativity) : method_scope.
Local Open Scope method_scope.

Definition get_self : M CodeReviewer := fun self => (self, self).

(** [self.issues.append(msg)] *)
Definition issues_append (msg : string) : M unit :=
  fun self =>
    (tt, {| code := code self; issues := issues self ++ [msg];
            tree := tree self |}).

(** [if b: m] *)
Definition when (b : bool) (m : M unit) : M unit :=
  if b then m else ret tt.

(** [for x in l: f(x)] *)
Fixpoint for_each {A : Type} (l : list A) (f : A -> M unit) : M unit :=
  match l with
  | [] => ret tt
  | x :: l' => f x ;; for_each l' f
  end.

Definition exec {A : Type} (m : M A) (self : CodeReviewer) : CodeReviewer :=
  snd (m self).

Definition result {A : Type} (m : M A) (self : CodeReviewer) : A :=
  fst (m self).

(** The messages, as the f-strings build them. *)
Definition function_name_msg (name : string) : string :=
  "Function name `" ++ name ++ "` must be lower_snake_case.".

Definition variable_name_msg (id : string) : string :=
  "Variable name `" ++ id ++ "` must be lower_snake_case.".

Definition missing_try_msg (name : string) : string :=
  "Endpoint `" ++ name ++ "` missing try/except block.".

Definition missing_json_msg (name : string) : string :=
  "Endpoint `" ++ name ++ "` must return a JSON response.".

Definition missing_validation_msg (name : string) : string :=
  "Endpoint `" ++ name ++ "` must have a validation check at the top.".

Definition missing_close_msg (name : string) : string :=
  "Function `" ++ name ++ "` must close DB sessions in a finally block.".

Definition missing_rollback_msg (name : string) : string :=
  "Function `" ++ name
  ++ "` does DB writes but is missing rollback in except block.".

Definition check_function_names : M unit :=
  self <- get_self ;;
  for_each (walk (NMod (tree self))) (fun node =>
    match node with
    | NStmt (FunctionDef name _ _ _ _ _ _ _) =>
        when (negb (is_snake_case name))
          (issues_append (function_name_msg name))
    | _ => ret tt
    end).

(** The inner loop of [check_variable_names], over the targets of one
    [Assign]. *)
Definition check_targets (targets : list expr) : M unit :=
  for_each targets (fun target =>
    match target with
    | Name id =>
        when (negb (is_snake_case id)) (issues_append (variable_name_msg id))
    | _ => ret tt
    end).

Definition check_variable_names : M unit :=
  self <- get_self ;;
  for_each (walk (NMod (tree self))) (fun node =>
    match node with
    | NStmt (Assign targets _) => check_targets targets
    | _ => ret tt
    end).

(** [isinstance(dec, ast.Call) and hasattr(dec.func, "attr") and
    dec.func.attr == "route"]: only [Attribute] nodes have an [attr]. *)
Definition is_route_call (dec : expr) : bool :=
  match dec with
  | Call (Attribute _ attr) _ _ => String.eqb attr "route"
  | _ => false
  end.

Definition is_Try (n : node) : bool :=
  match n with
  | NStmt (Try _ _ _ _) => true
  | _ => false
  end.

(** [isinstance(n, ast.Call) and hasattr(n.func, "id") and
    n.func.id in ["json", "jsonify"]]: only [Name] nodes have an [id]. *)
Definition is_json_call (n : node) : bool :=
  match n with
  | NExpr (Call (Name id) _ _) => existsb (String.eqb id) ["json"; "jsonify"]
  | _ => false
  end.

Definition is_If (s : stmt) : bool :=
  match s with
  | If _ _ _ => true
  | _ => false
  end.

(** [node.body[0] if node.body else None] *)
Definition first_stmt (body : list stmt) : option stmt :=
  match body with
  | s :: _ => Some s
  | [] => None
  end.

(** [first_stmt and not isinstance(first_stmt, ast.If)]: a node is true,
    [None] is false. *)
Definition lacks_validation (first : option stmt) : bool :=
  match first with
  | Some s => negb (is_If s)
  | None => false
  end.

(** The body of the loop of [check_endpoint_rules] for a [FunctionDef]
    [node] with the given name, decorators and body. *)
Definition check_endpoint (node : node) (name : string)
    (decorator_list : list expr) (body : list stmt) : M unit :=
  let has_route := existsb is_route_call decorator_list in
  when has_route (
    let has_try := existsb is_Try (walk node) in
    when (negb has_try) (issues_append (missing_try_msg name)) ;;
    let has_json_return := existsb is_json_call (walk node) in
    when (negb has_json_return) (issues_append (missing_json_msg name)) ;;
    let first := first_stmt body in
    when (lacks_validation first)
      (issues_append (missing_validation_msg name))).

Definition check_endpoint_rules : M unit :=
  self <- get_self ;;
  for_each (walk (NMod (tree self))) (fun node =>
    match node with
    | NStmt (FunctionDef name _ body decorator_list _ _ _ _) =>
        check_endpoint node name decorator_list body
    | _ => ret tt
    end).

(** [func_code]: the lines [lineno .. end_lineno] of the source text. *)
Definition func_code_of (code_lines : list string) (lineno end_lineno : Z)
    : string :=
  Str.join (String Str.LF "") (Str.slice code_lines (lineno - 1) end_lineno).

(** The body of the loop of [check_db_session_rules] once [func_code] is
    cut out. *)
Definition check_db_session (name func_code : string) : M unit :=
  when (Str.contains "getDbSession" func_code
        || Str.contains "create_dbsession_pg" func_code) (
    when (negb (Str.contains "finally" func_code)
          || negb (Str.contains ".close()" func_code))
      (issues_append (missing_close_msg name)) ;;
    when (Str.contains_any ["add"; "update"; "insert"] func_code) (
      when (negb (Str.contains "except" func_code)
            || negb (Str.contains ".rollback()" func_code))
        (issues_append (missing_rollback_msg name)))).

Definition check_db_session_rules : M unit :=
  self <- get_self ;;
  let code_lines := Str.splitlines (code self) in
  for_each (walk (NMod (tree self))) (fun node =>
    match node with
    | NStmt (FunctionDef name _ _ _ _ _ lineno end_lineno) =>
        check_db_session name (func_code_of code_lines lineno end_lineno)
    | _ => ret tt
    end).

Definition run_checks : M (list string) :=
  check_function_names ;;
  check_variable_names ;;
  check_endpoint_rules ;;
  check_db_session_rules ;;
  self <- get_self ;;
  ret (issues self).

(** ** What a method appends *)

(** [self] after the messages [out] were appended to its issue list. *)
Definition emit (self : CodeReviewer) (out : list string) : CodeReviewer :=
  {| code := code self; issues := issues self ++ out; tree := tree self |}.

(** The messages in [self.issues] after running [m] that were not there
    before. *)
Definition emitted {A : Type} (m : M A) (self : CodeReviewer) : list string :=
  skipn (List.length (issues self)) (issues (exec m self)).

(** [m] appends exactly [out], whatever the reviewer it runs on. *)
Definition Emits (m : M unit) (out : list string) : Prop :=
  forall self, m self = (tt, emit self out).

(** What each loop body appends, as a list. *)
Definition function_name_issues (n : node) : list string :=
  match n with
  | NStmt (FunctionDef name _ _ _ _ _ _ _) =>
      if negb (is_snake_case name) then [function_name_msg name] else []
  | _ => []
  end.

Definition target_issues (target : expr) : list string :=
  match target with
  | Name id => if negb (is_snake_case id) then [variable_name_msg id] else []
  | _ => []
  end.

Definition variable_name_issues (n : node) : list string :=
  match n with
  | NStmt (Assign targets _) => flat_map target_issues targets
  | _ => []
  end.

Definition endpoint_issues (node : node) (name : string)
    (decorator_list : list expr) (body : list stmt) : list string :=
  if existsb is_route_call decorator_list then
    (if negb (existsb is_Try (walk node)) then [missing_try_msg name] else [])
    ++ (if negb (existsb is_json_call (walk node))
        then [missing_json_msg name] else [])
    ++ (if lacks_validation (first_stmt body)
        then [missing_validation_msg name] else [])
  else [].

Definition endpoint_rule_issues (n : node) : list string :=
  match n with
  | NStmt (FunctionDef name _ body decorator_list _ _ _ _) =>
      endpoint_issues n name decorator_list body
  | _ => []
  end.

Definition db_session_issues (name func_code : string) : list string :=
  if Str.contains "getDbSession" func_code
     || Str.contains "create_dbsession_pg" func_code
  then
    (if negb (Str.contains "finally" func_code)
        || negb (Str.contains ".close()" func_code)
     then [missing_close_msg name] else [])
    ++ (if Str.contains_any ["add"; "update"; "insert"] func_code
        then
          if negb (Str.contains "except" func_code)
             || negb (Str.contains ".rollback()" func_code)
          then [missing_rollback_msg name] else []
        else [])
  else [].

Definition db_session_rule_issues (code_lines : list string) (n : node)
    : list string :=
  match n with
  | NStmt (FunctionDef name _ _ _ _ _ lineno end_lineno) =>
      db_session_issues name (func_code_of code_lines lineno end_lineno)
  | _ => []
  end.

(** Everything one run of the four rules appends. *)
Definition all_issues (code : string) (t : mod_) : list string :=
  flat_map function_name_issues (walk (NMod t))
  ++ flat_map variable_name_issues (walk (NMod t))
  ++ flat_map endpoint_rule_issues (walk (NMod t))
  ++ flat_map (db_session_rule_issues (Str.splitlines code)) (walk (NMod t)).

Definition is_Name (e : expr) : bool :=
  match e with
  | Name _ => true
  | _ => false
  end.

(** The messages and conditions as the specification words them. *)
Module SpecText.

Definition function_name_msg (name : string) : string :=
  "Function name '" ++ name ++ "' must be lower_snake_case.".

Definition variable_name_msg (id : string) : string :=
  "Variable name '" ++ id ++ "' must be lower_snake_case.".

Definition missing_validation_msg (name : string) : string :=
  "Endpoint '" ++ name ++ "' must have a validation check at the top.".

(** "The first top-level statement of the body is an If node." *)
Definition first_statement_is_if (body : list stmt) : bool :=
  match body with
  | If _ _ _ :: _ => true
  | _ => false
  end.

End SpecText.

(** ** Sample trees *)

Module Sample.

(** A constant, and the empty [arguments] of [def f():]. *)
Definition constant : expr := OtherExpr [].
Definition no_args : expr := OtherExpr [].

(** [pass] *)
Definition pass : stmt := OtherStmt [] [] [].

(** [app.route("/x")] *)
Definition route_decorator : expr :=
  Call (Attribute (Name "app") "route") [constant] [].

(** [x = 1] *)
Definition assign_x : stmt := Assign [Name "x"] constant.

(** [@app.route("/x")] over [def handler():] with the given body. *)
Definition endpoint (body : list stmt) : stmt :=
  FunctionDef "handler" no_args body [route_decorator] None [] 2 3.

(** [@app.route(jsonify("/x"))] over [def handler():] whose body is
    [if c: pass]. *)
Definition jsonify_in_decorator : stmt :=
  FunctionDef "handler" no_args [If constant [pass] []]
    [Call (Attribute (Name "app") "route")
       [Call (Name "jsonify") [constant] []] []]
    None [] 2 4.

(** [@app.route(jsonify("/x"))] over [def handler():] whose body is
    [x = 1]. *)
Definition jsonify_over_assign : stmt :=
  FunctionDef "handler" no_args [assign_x]
    [Call (Attribute (Name "app") "route")
       [Call (Name "jsonify") [constant] []] []]
    None [] 2 3.

(** [def FooBar():] with the body [BadVar = 1]. *)
Definition foo_bar_code : string :=
  "def FooBar():" ++ String Str.LF "    BadVar = 1".

Definition foo_bar_tree : mod_ :=
  Module [FunctionDef "FooBar" no_args [Assign [Name "BadVar"] constant]
            [] None [] 1 2].

(** [(A, b) = (1, 2)]: one target, a tuple of two names. *)
Definition tuple_target : expr := OtherExpr [Name "A"; Name "b"].

(** A function that opens a session, inserts, and closes in [finally]. *)
Definition insert_code : string :=
  "def save(row):" ++ String Str.LF
  "    s = create_dbsession_pg()" ++ String Str.LF
  "    try:" ++ String Str.LF
  "        s.insert(row)" ++ String Str.LF
  "    finally:" ++ String Str.LF
  "        s.close()".

(** The function of [insert_code], on lines 1 to 6: its body is the
    assignment and a [try] with a [finally]. *)
Definition save_function : stmt :=
  FunctionDef "save" (OtherExpr [OtherExpr []])
    [Assign [Name "s"] (Call (Name "create_dbsession_pg") [] []);
     Try [OtherStmt [Call (Attribute (Name "s") "insert") [Name "row"] []]
            [] []]
       [] []
       [OtherStmt [Call (Attribute (Name "s") "close") [] []] [] []]]
    [] None [] 1 6.

End Sample.

(** ** Measures of a tree and of a text *)

(** A [FunctionDef] whose name the classifier rejects. *)
Definition invalid_FunctionDef (n : node) : bool :=
  match n with
  | NStmt (FunctionDef name _ _ _ _ _ _ _) => negb (is_snake_case name)
  | _ => false
  end.

(** A plain [Name] whose identifier the classifier rejects. *)
Definition invalid_Name (e : expr) : bool :=
  match e with
  | Name id => negb (is_snake_case id)
  | _ => false
  end.

(** The number of rejected [Name] targets of an [Assign] node. *)
Definition invalid_targets (n : node) : nat :=
  match n with
  | NStmt (Assign targets _) => List.length (filter invalid_Name targets)
  | _ => 0
  end.

Definition is_FunctionDef (n : node) : bool :=
  match n with
  | NStmt (FunctionDef _ _ _ _ _ _ _ _) => true
  | _ => false
  end.

(** A [FunctionDef] with a decorator of the shape [x.route(...)]. *)
Definition is_endpoint (n : node) : bool :=
  match n with
  | NStmt (FunctionDef _ _ _ decorator_list _ _ _ _) =>
      existsb is_route_call decorator_list
  | _ => false
  end.

(** The character [c] does not occur in [s]. *)
Fixpoint lacks_char (c : ascii) (s : string) : bool :=
  match s with
  | EmptyString => true
  | String d r => negb (Ascii.eqb d c) && lacks_char c r
  end.

(** No character of [s] is a line boundary. *)
Fixpoint no_linebreak (s : string) : bool :=
  match s with
  | EmptyString => true
  | String c r => negb (Str.is_linebreak c) && no_linebreak r
  end.

(** The reviewer after [n] calls of [run_checks]. *)
Fixpoint run_times (n : nat) (self : CodeReviewer) : CodeReviewer :=
  match n with
  | O => self
  | S k => exec run_checks (run_times k self)
  end.

(** ** The command line: [review_file] and [main] *)

Module Cli.

(** What a procedure can raise. *)
Inductive exn : Type :=
| SystemExit (status : Z)   (* sys.exit(status) *)
| ReadError                 (* read_text failed *)
| ParseError.               (* ast.parse failed *)

(** A procedure prints lines on the standard output, and returns a value
    or raises. *)
Definition Proc (A : Type) : Type :=
  list string -> (A + exn) * list string.

Definition pure {A : Type} (a : A) : Proc A := fun out => (inl a, out).

Definition raise {A : Type} (e : exn) : Proc A := fun out => (inr e, out).

Definition and_then {A B : Type} (p : Proc A) (k : A -> Proc B) : Proc B :=
  fun out =>
    match p out with
    | (inl a, out') => k a out'
    | (inr e, out') => (inr e, out')
    end.

Declare Scope proc_scope.
Delimit Scope proc_scope with proc.
Notation "x <- p ;; k" := (and_then p (fun x => k))
  (at level 61, p at next level, right associativity) : proc_scope.
Notation "p ;; k" := (and_then p (fun _ => k))
  (at level 61, right associativity) : proc_scope.
Local Open Scope proc_scope.

(** [print(line)] *)
Definition print (line : string) : Proc unit :=
  fun out => (inl tt, (out ++ [line])%list).

(** The value of a call that may fail, raising [e] when it does. *)
Definition try_call {A : Type} (o : option A) (e : exn) : Proc A :=
  match o with
  | Some a => pure a
  | None => raise e
  end.

(** [for issue in issues: print("  " + issue)] *)
Fixpoint print_issues (issues : list string) : Proc unit :=
  match issues with
  | [] => pure tt
  | issue :: rest => print ("  " ++ issue) ;; print_issues rest
  end.

Definition usage : string :=
  "Usage: python code_reviewer.py <file1.py> [<file2.py> ...]".

(** The exit status of the process: 0 after a normal return, the status of
    a [sys.exit], and 1 after any other exception. *)
Definition exit_status {A : Type} (r : A + exn) : Z :=
  match r with
  | inl _ => 0
  | inr (SystemExit status) => status
  | inr _ => 1
  end.

Section Files.

(** The collaborators: [Path(file_arg)] as the text that an f-string shows
    for it, [Path.read_text] and [ast.parse], the last two [None] when
    they raise. *)
Variable Path : string -> string.
Variable read_text : string -> option string.
Variable ast_parse : string -> option mod_.

Definition review_file (filepath : string) : Proc bool :=
  code <- try_call (read_text filepath) ReadError ;;
  parsed <- try_call (ast_parse code) ParseError ;;
  let reviewer := init code parsed in
  let issues := result run_checks reviewer in
  match issues with
  | _ :: _ =>
      print ("Issues found in " ++ filepath ++ ":") ;;
      print_issues issues ;;
      pure false
  | [] =>
      print (filepath ++ " passed all checks.") ;;
      pure true
  end.

(** The loop of [main] over [sys.argv[1:]], from a given [all_passed]. *)
Fixpoint review_all (file_args : list string) (all_passed : bool)
    : Proc bool :=
  match file_args with
  | [] => pure all_passed
  | file_arg :: rest =>
      let path := Path file_arg in
      passed <- review_file path ;;
      review_all rest (if negb passed then false else all_passed)
  end.

Definition main (argv : list string) : Proc unit :=
  if (List.length argv <? 2)%nat then
    print usage ;;
    raise (SystemExit 1)
  else
    all_passed <- review_all (skipn 1 argv) true ;;
    if negb all_passed then raise (SystemExit 1) else pure tt.

(** The issues of one file, when it can be read and parsed. *)
Definition file_issues (filepath : string) : option (list string) :=
  match read_text filepath with
  | Some code =>
      match ast_parse code with
      | Some parsed => Some (result run_checks (init code parsed))
      | None => None
      end
  | None => None
  end.

(** What [review_file] prints for one file on an empty output. *)
Definition report (filepath : string) : list string :=
  snd (review_file filepath []).

End Files.

End Cli.

(** A sample directory: [clean.py] holds [x = 1], [foo_bar.py] holds
    [Sample.foo_bar_code], and no other file exists. *)
Module SampleFiles.

Definition Path (file_arg : string) : string := file_arg.

Definition read_text (filepath : string) : option string :=
  if String.eqb filepath "clean.py" then Some "x = 1"
  else if String.eqb filepath "foo_bar.py" then Some Sample.foo_bar_code
  else None.

Definition ast_parse (code : string) : option mod_ :=
  if String.eqb code "x = 1" then Some (Module [Sample.assign_x])
  else if String.eqb code Sample.foo_bar_code then Some Sample.foo_bar_tree
  else None.

End SampleFiles.

(** * Properties *)

(** ** Strings *)

Lemma append_inj_l (a x y : string) : a ++ x = a ++ y -> x = y.
Proof.
  induction a as [|c a IH]; simpl; intros H; [exact H|].
  injection H as H. exact (IH H).
Qed.

Lemma prefix_spec (sub s : string) :
  String.prefix sub s = true <-> exists b, s = sub ++ b.
Proof.
  revert s. induction sub as [|c sub IH]; intros s.
  - split; [intros _; now exists s | intros _; now destruct s].
  - destruct s as [|d s]; simpl.
    + split; [discriminate | intros [b Hb]; discriminate].
    + destruct (Ascii.ascii_dec c d) as [->|Hcd].
      * rewrite IH. split; intros [b Hb]; exists b.
        -- now rewrite Hb.
        -- now injection Hb.
      * split; [discriminate|].
        intros [b Hb]. injection Hb as Hd _. congruence.
Qed.

Lemma contains_spec (sub s : string) :
  Str.contains sub s = true <-> Str.Contains sub s.
Proof.
  unfold Str.Contains. induction s as [|c s IH]; cbn [Str.contains].
  - rewrite orb_false_r, prefix_spec. split.
    + intros [b Hb]. now exists EmptyString, b.
    + intros [a [b Hab]]. destruct a; simpl in Hab; [now exists b|discriminate].
  - rewrite orb_true_iff, prefix_spec, IH. split.
    + intros [[b Hb] | [a [b Hab]]].
      * now exists EmptyString, b.
      * exists (String c a), b. simpl. now rewrite Hab.
    + intros [a [b Hab]]. destruct a as [|d a]; simpl in Hab.
      * left. now exists b.
      * right. injection Hab as _ Hs. now exists a, b.
Qed.

Lemma contains_false (sub s : string) :
  Str.contains sub s = false <-> ~ Str.Contains sub s.
Proof.
  rewrite <- contains_spec. destruct (Str.contains sub s); split; congruence.
Qed.

(** ** The classifier *)

Lemma star_eol_nil (set : Re.charset) (bos : bool) :
  Re.match_here [Re.StarOf set; Re.Eol] bos EmptyString = true.
Proof. reflexivity. Qed.

Lemma star_eol_cons (set : Re.charset) (bos : bool) (c : ascii) (r : string) :
  Re.match_here [Re.StarOf set; Re.Eol] bos (String c r)
  = (Re.in_set set c && Re.match_here [Re.StarOf set; Re.Eol] false r)
    || Re.at_eol (String c r).
Proof.
  cbn [Re.match_here]. now rewrite andb_true_r.
Qed.

(** [[set]*$] accepts the texts made of characters of the set, and those
    followed by one final line feed. *)
Lemma star_eol_spec (set : Re.charset) (bos : bool) (s : string) :
  Re.match_here [Re.StarOf set; Re.Eol] bos s = true
  <-> SpecWords.all_chars (Re.in_set set) s = true
      \/ exists b, s = b ++ String Str.LF EmptyString
                   /\ SpecWords.all_chars (Re.in_set set) b = true.
Proof.
  revert bos. induction s as [|c r IH]; intros bos.
  - rewrite star_eol_nil. split; [now left | reflexivity].
  - rewrite star_eol_cons, orb_true_iff, andb_true_iff, IH. split.
    + intros [[Hc [Hr | [b [-> Hb]]]] | He].
      * left. simpl. now rewrite Hc, Hr.
      * right. exists (String c b). split; [reflexivity|].
        simpl. now rewrite Hc, Hb.
      * right. exists EmptyString. split; [|reflexivity].
        simpl in He. destruct r; [|discriminate].
        apply Ascii.eqb_eq in He. now subst c.
    + intros [H | [b [Hs Hb]]].
      * simpl in H. apply andb_true_iff in H as [Hc Hr]. left. tauto.
      * destruct b as [|d b]; simpl in Hs; injection Hs as -> ->.
        -- right. reflexivity.
        -- simpl in Hb. apply andb_true_iff in Hb as [Hd Hb].
           left. split; [exact Hd|]. right. now exists b.
Qed.

(** What [is_snake_case] accepts: the identifiers the specification calls
    valid, and each of them followed by one line feed. *)
Lemma is_snake_case_spec (s : string) :
  is_snake_case s = true
  <-> SpecWords.is_valid_identifier s = true
      \/ exists b, s = b ++ String Str.LF EmptyString
                   /\ SpecWords.is_valid_identifier b = true.
Proof.
  unfold is_snake_case, Re.matches, snake_case_pattern.
  destruct s as [|c r].
  - split; [discriminate|].
    intros [H | [b [Hs _]]]; [discriminate | now destruct b].
  - change (Re.match_here _ true (String c r))
      with (true && (SpecWords.lower_or_underscore c
              && Re.match_here
                   [Re.StarOf [("a", "z"); ("0", "9"); ("_", "_")]%char; Re.Eol]
                   false r)).
    rewrite andb_true_l, andb_true_iff, star_eol_spec.
    change (Re.in_set [("a", "z"); ("0", "9"); ("_", "_")]%char)
      with SpecWords.lower_digit_or_underscore.
    unfold SpecWords.is_valid_identifier.
    split.
    + intros [Hc [Hr | [b [-> Hb]]]].
      * left. now rewrite Hc, Hr.
      * right. exists (String c b). split; [reflexivity|]. now rewrite Hc, Hb.
    + intros [H | [b [Hs Hb]]].
      * apply andb_true_iff in H as [Hc Hr]. tauto.
      * destruct b as [|d b]; [discriminate|].
        simpl in Hs. injection Hs as -> ->.
        apply andb_true_iff in Hb as [Hd Hb]. split; [exact Hd|].
        right. now exists b.
Qed.

(** ** The walk visits every node of the subtree once *)

Lemma total_size_app (a b : list node) :
  total_size (a ++ b) = total_size a + total_size b.
Proof. unfold total_size. now rewrite map_app, list_sum_app. Qed.

Lemma total_size_stmts (l : list stmt) :
  total_size (map NStmt l) = list_sum (map stmt_size l).
Proof. unfold total_size. now rewrite map_map. Qed.

Lemma total_size_exprs (l : list expr) :
  total_size (map NExpr l) = list_sum (map expr_size l).
Proof. unfold total_size. now rewrite map_map. Qed.

Lemma flat_map_subnodes_stmts (l : list stmt) :
  flat_map subnodes (map NStmt l) = flat_map subnodes_stmt l.
Proof. induction l as [|s l IH]; simpl; [reflexivity|]. now rewrite IH. Qed.

Lemma flat_map_subnodes_exprs (l : list expr) :
  flat_map subnodes (map NExpr l) = map NExpr (flat_map subexprs l).
Proof.
  induction l as [|e l IH]; [reflexivity|].
  cbn [map flat_map subnodes]. now rewrite IH, map_app.
Qed.

Create Rewrite HintDb tree_size.
Create Rewrite HintDb tree_nodes.
#[local] Hint Rewrite total_size_app total_size_stmts total_size_exprs
  : tree_size.
#[local] Hint Rewrite @flat_map_app @map_app flat_map_subnodes_stmts
  flat_map_subnodes_exprs @app_nil_r : tree_nodes.

Lemma node_size_children (n : node) :
  node_size n = S (total_size (iter_child_nodes n)).
Proof.
  destruct n as [[body] | s | e]; [| destruct s | destruct e];
    cbn [node_size stmt_size expr_size iter_child_nodes]; unfold exprs_size;
    change (total_size (?x :: ?l)) with (node_size x + total_size l);
    autorewrite with tree_size; unfold total_size;
    cbn [node_size map list_sum fold_right]; lia.
Qed.

Lemma node_size_pos (n : node) : 0 < node_size n.
Proof. rewrite node_size_children. lia. Qed.

Lemma subnodes_children (n : node) :
  subnodes n = n :: flat_map subnodes (iter_child_nodes n).
Proof.
  destruct n as [[body] | s | e]; [| destruct s | destruct e];
    cbn [subnodes subnodes_stmt subexprs iter_child_nodes map flat_map];
    autorewrite with tree_nodes; cbn [subnodes map app flat_map];
    rewrite ?app_nil_r, <- ?app_assoc; reflexivity.
Qed.

Lemma walk_loop_perm (turns : nat) :
  forall todo,
    total_size todo <= turns ->
    Permutation (walk_loop turns todo) (flat_map subnodes todo).
Proof.
  induction turns as [|turns IH]; intros [|n rest] Hsize;
    cbn [walk_loop flat_map]; try apply perm_nil.
  - change (total_size (n :: rest)) with (node_size n + total_size rest)
      in Hsize.
    pose proof (node_size_pos n). lia.
  - change (total_size (n :: rest)) with (node_size n + total_size rest)
      in Hsize.
    rewrite node_size_children in Hsize.
    rewrite subnodes_children. cbn [app]. apply perm_skip.
    rewrite IH by (rewrite total_size_app; lia).
    rewrite flat_map_app. apply Permutation_app_comm.
Qed.

(** [ast.walk(n)] yields the nodes of the subtree of [n], each once. *)
Lemma walk_perm (n : node) : Permutation (walk n) (subnodes n).
Proof.
  unfold walk. rewrite walk_loop_perm.
  - cbn [flat_map]. now rewrite app_nil_r.
  - unfold total_size. simpl. lia.
Qed.

(** More turns than nodes change nothing: the queue runs empty first. *)
Lemma walk_loop_enough (turns : nat) :
  forall todo extra,
    total_size todo <= turns ->
    walk_loop (turns + extra) todo = walk_loop turns todo.
Proof.
  induction turns as [|turns IH]; intros [|n rest] extra Hsize.
  - now destruct extra.
  - change (total_size (n :: rest)) with (node_size n + total_size rest)
      in Hsize.
    pose proof (node_size_pos n). lia.
  - reflexivity.
  - change (total_size (n :: rest)) with (node_size n + total_size rest)
      in Hsize.
    rewrite node_size_children in Hsize.
    cbn [walk_loop Nat.add]. f_equal.
    apply IH. rewrite total_size_app. lia.
Qed.

Lemma existsb_perm {A : Type} (p : A -> bool) (l l' : list A) :
  Permutation l l' -> existsb p l = existsb p l'.
Proof.
  intros H. apply eq_true_iff_eq. rewrite !existsb_exists.
  split; intros [x [Hx Hp]]; exists x; split; try exact Hp.
  - now apply (Permutation_in _ H).
  - now apply (Permutation_in _ (Permutation_sym H)).
Qed.

Lemma existsb_false_forall {A : Type} (p : A -> bool) (l : list A) :
  existsb p l = false <-> forall x, In x l -> p x = false.
Proof.
  induction l as [|a l IH]; simpl.
  - split; [intros _ x [] | reflexivity].
  - rewrite orb_false_iff, IH. split.
    + intros [Ha Hl] x [<- | Hx]; auto.
    + intros H. split; [apply H; now left | intros x Hx; apply H; now right].
Qed.

Lemma existsb_walk (p : node -> bool) (n : node) :
  existsb p (walk n) = existsb p (subnodes n).
Proof. apply existsb_perm, walk_perm. Qed.

Lemma in_walk (n x : node) : In x (walk n) <-> In x (subnodes n).
Proof.
  split; apply Permutation_in; [|apply Permutation_sym]; apply walk_perm.
Qed.

Lemma no_Try_in_exprs (es : list expr) : existsb is_Try (map NExpr es) = false.
Proof. induction es as [|e es IH]; [reflexivity | exact IH]. Qed.

(** A [Try] in a function is a [Try] in its body: the arguments,
    decorators and annotations are expressions. *)
Lemma has_try_body (name : string) (args : expr) (body : list stmt)
    (decorator_list : list expr) (returns : option expr)
    (type_params : list expr) (lineno end_lineno : Z) :
  existsb is_Try
    (walk (NStmt (FunctionDef name args body decorator_list returns
                    type_params lineno end_lineno)))
  = existsb is_Try (flat_map subnodes_stmt body).
Proof.
  rewrite existsb_walk. cbn [subnodes subnodes_stmt existsb is_Try].
  rewrite !existsb_app, !no_Try_in_exprs.
  now rewrite !orb_false_r.
Qed.

(** ** Methods only append to the issue list *)

Lemma emit_nil (self : CodeReviewer) : emit self [] = self.
Proof. destruct self. unfold emit. simpl. now rewrite app_nil_r. Qed.

Lemma emit_emit (self : CodeReviewer) (a b : list string) :
  emit (emit self a) b = emit self (a ++ b).
Proof. unfold emit. simpl. now rewrite app_assoc. Qed.

Lemma Emits_ret : Emits (ret tt) [].
Proof. intros self. unfold ret. now rewrite emit_nil. Qed.

Lemma Emits_append (msg : string) : Emits (issues_append msg) [msg].
Proof. intros self. reflexivity. Qed.

Lemma Emits_when (b : bool) (m : M unit) (out : list string) :
  Emits m out -> Emits (when b m) (if b then out else []).
Proof. destruct b; [trivial | intros _; apply Emits_ret]. Qed.

Lemma Emits_seq (m1 m2 : M unit) (o1 o2 : list string) :
  Emits m1 o1 -> Emits m2 o2 -> Emits (m1 ;; m2) (o1 ++ o2).
Proof.
  intros H1 H2 self. unfold bind. now rewrite H1, H2, emit_emit.
Qed.

Lemma Emits_for_each {A : Type} (f : A -> M unit) (g : A -> list string) :
  (forall x, Emits (f x) (g x)) ->
  forall l, Emits (for_each l f) (flat_map g l).
Proof.
  intros H l. induction l as [|x l IH]; cbn [for_each flat_map].
  - apply Emits_ret.
  - now apply Emits_seq.
Qed.

Lemma emitted_emit {A : Type} (m : M A) (self : CodeReviewer) (a : A)
    (out : list string) :
  m self = (a, emit self out) -> emitted m self = out.
Proof.
  intros H. unfold emitted, exec. rewrite H. cbn [snd emit issues].
  rewrite skipn_app, skipn_all, Nat.sub_diag. reflexivity.
Qed.

Lemma emitted_Emits (m : M unit) (out : list string) (self : CodeReviewer) :
  Emits m out -> emitted m self = out.
Proof. intros H. exact (emitted_emit m self tt out (H self)). Qed.

Create HintDb emits.
#[local] Hint Resolve Emits_ret Emits_append Emits_when Emits_seq : emits.

Lemma check_targets_Emits (targets : list expr) :
  Emits (check_targets targets) (flat_map target_issues targets).
Proof.
  apply Emits_for_each. intros [id | | |]; cbn [target_issues];
    auto with emits.
Qed.

Lemma check_endpoint_Emits (node : node) (name : string)
    (decorator_list : list expr) (body : list stmt) :
  Emits (check_endpoint node name decorator_list body)
    (endpoint_issues node name decorator_list body).
Proof.
  unfold check_endpoint, endpoint_issues. auto with emits.
Qed.

Lemma check_db_session_Emits (name func_code : string) :
  Emits (check_db_session name func_code)
    (db_session_issues name func_code).
Proof.
  unfold check_db_session, db_session_issues. auto 6 with emits.
Qed.

Lemma check_function_names_emit (self : CodeReviewer) :
  check_function_names self
  = (tt, emit self (flat_map function_name_issues (walk (NMod (tree self))))).
Proof.
  unfold check_function_names, bind, get_self.
  apply Emits_for_each.
  intros [m | [] | e]; cbn [function_name_issues]; auto with emits.
Qed.

Lemma check_variable_names_emit (self : CodeReviewer) :
  check_variable_names self
  = (tt, emit self (flat_map variable_name_issues (walk (NMod (tree self))))).
Proof.
  unfold check_variable_names, bind, get_self.
  apply Emits_for_each.
  intros [m | [] | e]; cbn [variable_name_issues]; auto with emits.
  apply check_targets_Emits.
Qed.

Lemma check_endpoint_rules_emit (self : CodeReviewer) :
  check_endpoint_rules self
  = (tt, emit self (flat_map endpoint_rule_issues (walk (NMod (tree self))))).
Proof.
  unfold check_endpoint_rules, bind, get_self.
  apply Emits_for_each.
  intros [m | [] | e]; cbn [endpoint_rule_issues]; auto with emits.
  apply check_endpoint_Emits.
Qed.

Lemma check_db_session_rules_emit (self : CodeReviewer) :
  check_db_session_rules self
  = (tt, emit self
           (flat_map (db_session_rule_issues (Str.splitlines (code self)))
              (walk (NMod (tree self))))).
Proof.
  unfold check_db_session_rules, bind, get_self.
  apply Emits_for_each.
  intros [m | [] | e]; cbn [db_session_rule_issues]; auto with emits.
  apply check_db_session_Emits.
Qed.

Lemma run_checks_emit (self : CodeReviewer) :
  run_checks self
  = ((issues self ++ all_issues (code self) (tree self))%list,
     emit self (all_issues (code self) (tree self))).
Proof.
  unfold run_checks, bind at 1 2 3 4.
  rewrite check_function_names_emit.
  rewrite check_variable_names_emit.
  rewrite check_endpoint_rules_emit.
  rewrite check_db_session_rules_emit.
  cbn [emit code tree issues get_self bind ret].
  unfold emit, all_issues. cbn [code tree issues].
  now rewrite <- !app_assoc.
Qed.

Lemma naming_emit (self : CodeReviewer) :
  (check_function_names ;; check_variable_names) self
  = (tt, emit self
           (flat_map function_name_issues (walk (NMod (tree self)))
            ++ flat_map variable_name_issues (walk (NMod (tree self))))).
Proof.
  unfold bind. rewrite check_function_names_emit, check_variable_names_emit.
  cbn [emit tree]. now rewrite emit_emit.
Qed.

Lemma endpoint_msgs_distinct (name : string) :
  missing_try_msg name <> missing_validation_msg name
  /\ missing_json_msg name <> missing_validation_msg name
  /\ missing_try_msg name <> missing_json_msg name
  /\ missing_close_msg name <> missing_rollback_msg name.
Proof.
  repeat split; intros H; apply append_inj_l in H; apply append_inj_l in H;
    discriminate H.
Qed.

(** ** The naming rule *)

Lemma function_name_issue_origin (n : node) (msg : string) :
  In msg (function_name_issues n)
  <-> exists name args body decorator_list returns type_params lineno
             end_lineno,
        n = NStmt (FunctionDef name args body decorator_list returns
                     type_params lineno end_lineno)
        /\ is_snake_case name = false
        /\ msg = function_name_msg name.
Proof.
  split.
  - destruct n as [m | [name a b d r t l e | | | |] | e];
      cbn [function_name_issues]; try contradiction.
    destruct (is_snake_case name) eqn:Hname; cbn; [contradiction|].
    intros [<- | []]. now exists name, a, b, d, r, t, l, e.
  - intros [name [a [b [d [r [t [l [e [-> [Hname ->]]]]]]]]]].
    cbn [function_name_issues]. rewrite Hname. now left.
Qed.

Lemma target_issue_origin (target : expr) (msg : string) :
  In msg (target_issues target)
  <-> exists id,
        target = Name id /\ is_snake_case id = false
        /\ msg = variable_name_msg id.
Proof.
  split.
  - destruct target as [id | | |]; cbn [target_issues]; try contradiction.
    destruct (is_snake_case id) eqn:Hid; cbn; [contradiction|].
    intros [<- | []]. now exists id.
  - intros [id [-> [Hid ->]]]. cbn [target_issues]. rewrite Hid. now left.
Qed.

Lemma variable_name_issue_origin (n : node) (msg : string) :
  In msg (variable_name_issues n)
  <-> exists targets value id,
        n = NStmt (Assign targets value)
        /\ In (Name id) targets
        /\ is_snake_case id = false
        /\ msg = variable_name_msg id.
Proof.
  split.
  - destruct n as [m | [| targets value | | |] | e];
      cbn [variable_name_issues]; try contradiction.
    intros H. apply in_flat_map in H as [target [Htarget H]].
    apply target_issue_origin in H as [id [-> [Hid ->]]].
    now exists targets, value, id.
  - intros [targets [value [id [-> [Hin [Hid ->]]]]]].
    cbn [variable_name_issues]. apply in_flat_map.
    exists (Name id). split; [exact Hin|].
    apply target_issue_origin. now exists id.
Qed.

(** C1, as the claim words it, fails: the messages carry the name between
    backquotes, so for [def FooBar():] with the body [BadVar = 1] neither
    emitted message is a message of the specified text, for any name. *)
Lemma naming_messages_counterexample :
  emitted (check_function_names ;; check_variable_names)
    (init Sample.foo_bar_code Sample.foo_bar_tree)
  = [function_name_msg "FooBar"; variable_name_msg "BadVar"]
  /\ (forall name,
        function_name_msg "FooBar" <> SpecText.function_name_msg name
        /\ function_name_msg "FooBar" <> SpecText.variable_name_msg name)
  /\ (forall id,
        variable_name_msg "BadVar" <> SpecText.function_name_msg id
        /\ variable_name_msg "BadVar" <> SpecText.variable_name_msg id).
Proof.
  split; [reflexivity|]. split; intros x; split; intros H; discriminate H.
Qed.

(** C1 (amended): every issue the naming rule emits is
    [Function name `<name>` must be lower_snake_case.] for a [FunctionDef]
    of the tree whose name the classifier rejects, or
    [Variable name `<name>` must be lower_snake_case.] for a [Name] target
    of an [Assign] of the tree whose identifier the classifier rejects,
    with the name between backquotes; and each such node yields its
    message. *)
Theorem naming_messages (self : CodeReviewer) (msg : string) :
  In msg (emitted (check_function_names ;; check_variable_names) self)
  <-> (exists name args body decorator_list returns type_params lineno
              end_lineno,
          In (NStmt (FunctionDef name args body decorator_list returns
                       type_params lineno end_lineno))
             (subnodes (NMod (tree self)))
          /\ is_snake_case name = false
          /\ msg = function_name_msg name)
      \/ (exists targets value id,
            In (NStmt (Assign targets value)) (subnodes (NMod (tree self)))
            /\ In (Name id) targets
            /\ is_snake_case id = false
            /\ msg = variable_name_msg id).
Proof.
  rewrite (emitted_emit _ _ _ _ (naming_emit self)).
  rewrite in_app_iff, !in_flat_map.
  setoid_rewrite function_name_issue_origin.
  setoid_rewrite variable_name_issue_origin.
  setoid_rewrite in_walk.
  split.
  - intros [[n [Hn [name [a [b [d [r [t [l [e [-> H]]]]]]]]]]]
           | [n [Hn [targets [value [id [-> H]]]]]]].
    + left. now exists name, a, b, d, r, t, l, e.
    + right. now exists targets, value, id.
  - intros [[name [a [b [d [r [t [l [e [Hn H]]]]]]]]]
           | [targets [value [id [Hn H]]]]].
    + left. eexists. split; [exact Hn|].
      now exists name, a, b, d, r, t, l, e.
    + right. eexists. split; [exact Hn|]. now exists targets, value, id.
Qed.

(** C7: a target of an [Assign] that is not a plain [Name] (a tuple, a
    list, an attribute, ...) adds no variable-name issue, whatever
    identifiers it holds: the loop over the targets emits the same with
    and without it, and every issue of the rule names an identifier that
    is itself a target of an [Assign] of the tree, never one that only
    occurs inside a target. *)
Theorem non_name_target_exempt (self : CodeReviewer) (target : expr)
    (before after : list expr) :
  is_Name target = false ->
  emitted (check_targets (before ++ target :: after)) self
  = emitted (check_targets (before ++ after)) self
  /\ forall msg,
       In msg (emitted check_variable_names self) ->
       exists targets value id,
         In (NStmt (Assign targets value)) (subnodes (NMod (tree self)))
         /\ In (Name id) targets
         /\ msg = variable_name_msg id.
Proof.
  intros Htarget. split.
  - rewrite !(emitted_Emits _ _ self (check_targets_Emits _)).
    rewrite !flat_map_app. cbn [flat_map].
    destruct target; [discriminate Htarget | reflexivity ..].
  - intros msg.
    rewrite (emitted_emit _ _ _ _ (check_variable_names_emit self)).
    rewrite in_flat_map. intros [n [Hn H]]. apply in_walk in Hn.
    apply variable_name_issue_origin in H
      as [targets [value [id [-> [Hin [_ ->]]]]]].
    now exists targets, value, id.
Qed.

(** The tuple target of [(A, b) = (1, 2)] next to the target [Bad]. *)
Lemma non_name_target_exempt_witness :
  is_Name Sample.tuple_target = false
  /\ emitted (check_targets ([Name "Bad"] ++ Sample.tuple_target :: []))
       (init "" (Module []))
     = emitted (check_targets ([Name "Bad"] ++ [])) (init "" (Module [])).
Proof.
  split; [reflexivity|].
  exact (proj1 (non_name_target_exempt (init "" (Module []))
                  Sample.tuple_target [Name "Bad"] [] eq_refl)).
Defined.

(** ** The endpoint rule *)

Lemma single_In_iff (b : bool) (x y : string) (rest : list string) :
  In x ((if b then [y] else []) ++ rest)
  <-> (b = true /\ y = x) \/ In x rest.
Proof.
  rewrite in_app_iff. destruct b; cbn [In]; intuition congruence.
Qed.

Lemma single_In_last (b : bool) (x y : string) :
  In x (if b then [y] else []) <-> b = true /\ y = x.
Proof. destruct b; cbn [In]; intuition congruence. Qed.

Section Endpoint.

Variable self : CodeReviewer.
Variables (name : string) (args : expr) (body : list stmt).
Variables (decorator_list : list expr) (returns : option expr).
Variables (type_params : list expr) (lineno end_lineno : Z).

Local Abbreviation fn :=
  (NStmt (FunctionDef name args body decorator_list returns type_params
            lineno end_lineno)).
Local Abbreviation out :=
  (emitted (check_endpoint fn name decorator_list body) self).

Hypothesis has_route : existsb is_route_call decorator_list = true.

Lemma endpoint_out :
  out = ((if negb (existsb is_Try (walk fn)) then [missing_try_msg name]
          else [])
         ++ (if negb (existsb is_json_call (walk fn))
             then [missing_json_msg name] else [])
         ++ (if lacks_validation (first_stmt body)
             then [missing_validation_msg name] else []))%list.
Proof.
  rewrite (emitted_Emits _ _ self (check_endpoint_Emits _ _ _ _)).
  unfold endpoint_issues. now rewrite has_route.
Qed.

(** What the loop body emits for a function of the tree is among the
    issues of the rule. *)
Lemma endpoint_out_in_rule :
  In fn (subnodes (NMod (tree self))) ->
  incl out (emitted check_endpoint_rules self).
Proof.
  intros Hfn msg Hmsg.
  rewrite (emitted_emit _ _ _ _ (check_endpoint_rules_emit self)).
  apply in_flat_map. exists fn. split; [now apply in_walk|].
  cbn [endpoint_rule_issues].
  now rewrite <- (emitted_Emits _ _ self (check_endpoint_Emits _ _ _ _)).
Qed.

(** C2 (amended): an endpoint function of a parsed tree, whose body is
    therefore not empty, gets the issue
    [Endpoint `<name>` must have a validation check at the top.], with
    the name between backquotes, if and only if its body is empty or the
    first statement of its body is not an [If]; and the endpoint rule
    emits that issue when the function is a node of the tree. *)
Theorem validation_issue_iff :
  body <> [] ->
  (In (missing_validation_msg name) out
   <-> body = []
       \/ exists first rest, body = first :: rest /\ is_If first = false)
  /\ (In fn (subnodes (NMod (tree self))) ->
      In (missing_validation_msg name) out ->
      In (missing_validation_msg name) (emitted check_endpoint_rules self)).
Proof.
  intros Hbody. split; [|intros Hfn; apply (endpoint_out_in_rule Hfn)].
  pose proof (endpoint_msgs_distinct name) as [Htry [Hjson _]].
  rewrite endpoint_out, !single_In_iff, single_In_last.
  destruct body as [|first rest]; [congruence|].
  cbn [first_stmt lacks_validation]. split.
  - intros [[_ H] | [[_ H] | [H _]]]; try contradiction.
    right. exists first, rest. split; [reflexivity|].
    now apply negb_true_iff in H.
  - intros [H | [f [r [H Hf]]]]; [discriminate H|].
    injection H as <- <-.
    right. right. split; [now apply negb_true_iff | reflexivity].
Qed.

(** C4 (amended): for an endpoint function the try/except issue is emitted
    if and only if no [Try] occurs in the subtrees of its body, and the
    JSON issue is emitted if and only if no [Call] of the plain name
    [json] or [jsonify] occurs anywhere in the subtree of the function
    node, which holds its arguments with their defaults and annotations,
    its decorators and its return annotation besides its body. *)
Theorem try_and_json_issue_iff :
  (In (missing_try_msg name) out
   <-> forall n, In n (flat_map subnodes_stmt body) -> is_Try n = false)
  /\ (In (missing_json_msg name) out
      <-> forall n, In n (subnodes fn) -> is_json_call n = false).
Proof.
  pose proof (endpoint_msgs_distinct name) as [Htry [Hjson [Htj _]]].
  rewrite endpoint_out, !single_In_iff, !single_In_last, has_try_body,
    existsb_walk.
  rewrite <- !existsb_false_forall, !negb_true_iff.
  split; split; intuition congruence.
Qed.

(** C6 (amended): for an endpoint function of a parsed tree, whose body
    is therefore not empty, the three conditions are evaluated
    independently and each failed one yields exactly one issue, in the
    order try/except, JSON, validation: a [Try] in the body, a [json] or
    [jsonify] call anywhere in the function node, its decorators and
    arguments included, and a first statement that is an [If].  An
    endpoint whose body is a single assignment, with no [json] or
    [jsonify] call anywhere in the function node, gets exactly the three
    issues.  The endpoint rule emits these issues when the function is a
    node of the tree. *)
Theorem endpoint_issues_independent :
  body <> [] ->
  out = ((if existsb is_Try (flat_map subnodes_stmt body) then []
          else [missing_try_msg name])
         ++ (if existsb is_json_call (subnodes fn) then []
             else [missing_json_msg name])
         ++ (if SpecText.first_statement_is_if body then []
             else [missing_validation_msg name]))%list
  /\ (forall targets value,
        body = [Assign targets value] ->
        existsb is_json_call (subnodes fn) = false ->
        out = [missing_try_msg name; missing_json_msg name;
               missing_validation_msg name])
  /\ (In fn (subnodes (NMod (tree self))) ->
      incl out (emitted check_endpoint_rules self)).
Proof.
  intros Hbody.
  assert (Hout := endpoint_out).
  rewrite has_try_body, existsb_walk in Hout.
  split; [|split; [|exact endpoint_out_in_rule]].
  - rewrite Hout. f_equal; [|f_equal].
    + now destruct (existsb is_Try _).
    + now destruct (existsb is_json_call _).
    + destruct body as [|first rest]; [congruence|].
      cbn [first_stmt lacks_validation SpecText.first_statement_is_if].
      now destruct first.
  - intros targets value Hassign Hjson. rewrite Hout, Hjson.
    rewrite Hassign. cbn [flat_map subnodes_stmt]. rewrite app_nil_r.
    cbn [existsb is_Try]. rewrite existsb_app, !no_Try_in_exprs. reflexivity.
Qed.

End Endpoint.

(** C2, as the claim words it, fails: the message carries backquotes, so
    for the endpoint [handler] with the body [x = 1], whose first
    statement is not an [If], the specified text with single quotes is
    not among the emitted issues. *)
Lemma validation_counterexample :
  emitted check_endpoint_rules
    (init "" (Module [Sample.endpoint [Sample.assign_x]]))
  = [missing_try_msg "handler"; missing_json_msg "handler";
     missing_validation_msg "handler"]
  /\ missing_try_msg "handler" <> SpecText.missing_validation_msg "handler"
  /\ missing_json_msg "handler" <> SpecText.missing_validation_msg "handler"
  /\ missing_validation_msg "handler"
     <> SpecText.missing_validation_msg "handler".
Proof.
  split; [reflexivity|]. repeat split; intros H; discriminate H.
Qed.

(** The endpoint [handler] whose body is [x = 1], alone in its module. *)
Lemma validation_issue_iff_witness :
  existsb is_route_call [Sample.route_decorator] = true
  /\ [Sample.assign_x] <> []
  /\ In (NStmt (Sample.endpoint [Sample.assign_x]))
       (subnodes (NMod (Module [Sample.endpoint [Sample.assign_x]])))
  /\ In (missing_validation_msg "handler")
       (emitted check_endpoint_rules
          (init "" (Module [Sample.endpoint [Sample.assign_x]]))).
Proof.
  pose proof (validation_issue_iff
                (init "" (Module [Sample.endpoint [Sample.assign_x]]))
                "handler" Sample.no_args [Sample.assign_x]
                [Sample.route_decorator] None [] 2 3 eq_refl
                ltac:(discriminate)) as [Hiff Hrule].
  assert (Hnode : In (NStmt (Sample.endpoint [Sample.assign_x]))
            (subnodes (NMod (Module [Sample.endpoint [Sample.assign_x]]))))
    by (right; left; reflexivity).
  split; [reflexivity|]. split; [discriminate|]. split; [exact Hnode|].
  apply (Hrule Hnode). apply Hiff. right.
  exists Sample.assign_x, []. split; reflexivity.
Defined.

(** C4, as the claim words it, fails: under
    [@app.route(jsonify("/x"))] the body [if c: pass] holds no [json] or
    [jsonify] call, yet the JSON issue is not emitted: the call in the
    decorator satisfies the check. *)
Lemma json_in_decorator_counterexample :
  existsb is_json_call
    (flat_map subnodes_stmt [If Sample.constant [Sample.pass] []]) = false
  /\ emitted check_endpoint_rules
       (init "" (Module [Sample.jsonify_in_decorator]))
     = [missing_try_msg "handler"].
Proof. split; reflexivity. Qed.

(** The endpoint [handler] whose body is [x = 1]. *)
Lemma try_and_json_issue_iff_witness :
  existsb is_route_call [Sample.route_decorator] = true
  /\ (In (missing_try_msg "handler")
        (emitted (check_endpoint (NStmt (Sample.endpoint [Sample.assign_x]))
                    "handler" [Sample.route_decorator] [Sample.assign_x])
           (init "" (Module [])))
      <-> forall n,
            In n (flat_map subnodes_stmt [Sample.assign_x]) ->
            is_Try n = false)
  /\ (In (missing_json_msg "handler")
        (emitted (check_endpoint (NStmt (Sample.endpoint [Sample.assign_x]))
                    "handler" [Sample.route_decorator] [Sample.assign_x])
           (init "" (Module [])))
      <-> forall n,
            In n (subnodes (NStmt (Sample.endpoint [Sample.assign_x]))) ->
            is_json_call n = false).
Proof.
  split; [reflexivity|].
  exact (try_and_json_issue_iff (init "" (Module [])) "handler"
           Sample.no_args [Sample.assign_x] [Sample.route_decorator] None []
           2 3 eq_refl).
Defined.

(** C6, as the claim words it, fails: under
    [@app.route(jsonify("/x"))] the endpoint [handler] has the single
    assignment [x = 1] as its body, which holds no [If], no [Try] and no
    [json] or [jsonify] call, yet it gets two issues, not three: the call
    in the decorator satisfies the JSON condition. *)
Lemma decorator_json_counterexample :
  SpecText.first_statement_is_if [Sample.assign_x] = false
  /\ existsb is_Try (flat_map subnodes_stmt [Sample.assign_x]) = false
  /\ existsb is_json_call (flat_map subnodes_stmt [Sample.assign_x]) = false
  /\ emitted check_endpoint_rules
       (init "" (Module [Sample.jsonify_over_assign]))
     = [missing_try_msg "handler"; missing_validation_msg "handler"].
Proof. repeat split; reflexivity. Qed.

(** The endpoint [handler] whose body is [x = 1], alone in its module,
    gets the three issues. *)
Lemma endpoint_issues_independent_witness :
  existsb is_route_call [Sample.route_decorator] = true
  /\ [Sample.assign_x] <> []
  /\ emitted (check_endpoint (NStmt (Sample.endpoint [Sample.assign_x]))
                "handler" [Sample.route_decorator] [Sample.assign_x])
       (init "" (Module [Sample.endpoint [Sample.assign_x]]))
     = [missing_try_msg "handler"; missing_json_msg "handler";
        missing_validation_msg "handler"]
  /\ incl [missing_try_msg "handler"; missing_json_msg "handler";
           missing_validation_msg "handler"]
       (emitted check_endpoint_rules
          (init "" (Module [Sample.endpoint [Sample.assign_x]]))).
Proof.
  pose proof (endpoint_issues_independent
                (init "" (Module [Sample.endpoint [Sample.assign_x]]))
                "handler" Sample.no_args [Sample.assign_x]
                [Sample.route_decorator] None [] 2 3 eq_refl
                ltac:(discriminate)) as [_ [Hthree Hrule]].
  specialize (Hthree [Name "x"] Sample.constant eq_refl eq_refl).
  split; [reflexivity|]. split; [discriminate|]. split; [exact Hthree|].
  rewrite <- Hthree. apply Hrule. right. left. reflexivity.
Defined.

(** ** The classifier against the specification *)

(** C3 (the code departs from the claim): [$] also matches before a final
    line feed, so the classifier accepts [foo] followed by a line feed,
    which is not a whole-text match of the pattern the specification
    describes. *)
Theorem is_snake_case_trailing_newline :
  is_snake_case ("foo" ++ String Str.LF "") = true
  /\ SpecWords.is_valid_identifier ("foo" ++ String Str.LF "") = false.
Proof. split; reflexivity. Qed.

(** ** The resource lifecycle rule *)

Lemma contains_any_spec (keywords : list string) (s : string) :
  Str.contains_any keywords s = true
  <-> exists keyword, In keyword keywords /\ Str.Contains keyword s.
Proof.
  unfold Str.contains_any. rewrite existsb_exists.
  split; intros [k [Hk H]]; exists k; split; trivial; now apply contains_spec.
Qed.

Section DbSession.

Variable self : CodeReviewer.
Variables name func_code : string.

Local Abbreviation out := (emitted (check_db_session name func_code) self).
Local Abbreviation has sub := (Str.Contains sub func_code).

Lemma db_session_out : out = db_session_issues name func_code.
Proof. apply emitted_Emits, check_db_session_Emits. Qed.

Lemma writes_spec :
  Str.contains_any ["add"; "update"; "insert"] func_code = true
  <-> has "add" \/ has "update" \/ has "insert".
Proof.
  rewrite contains_any_spec. cbn [In]. split.
  - intros [k [[<- | [<- | [<- | []]]] H]]; tauto.
  - intros [H | [H | H]]; eexists; (split; [|exact H]); tauto.
Qed.

(** The body of the loop, for one text slice: with [getDbSession] or
    [create_dbsession_pg] in the slice, the missing-close issue is emitted
    if and only if the slice lacks [finally] or lacks [.close()], and the
    missing-rollback issue if and only if the slice holds one of [add],
    [update], [insert] and lacks [except] or lacks [.rollback()].  A slice
    with [create_dbsession_pg], [insert], [finally] and [.close()] but
    neither [except] nor [.rollback()] yields the rollback issue alone,
    and a slice with neither acquisition text yields no issue. *)
Lemma db_session_issues_spec :
  (has "getDbSession" \/ has "create_dbsession_pg" ->
     (In (missing_close_msg name) out
      <-> ~ has "finally" \/ ~ has ".close()")
     /\ (In (missing_rollback_msg name) out
         <-> (has "add" \/ has "update" \/ has "insert")
             /\ (~ has "except" \/ ~ has ".rollback()")))
  /\ (has "create_dbsession_pg" -> has "insert" ->
      has "finally" -> has ".close()" ->
      ~ has "except" -> ~ has ".rollback()" ->
      out = [missing_rollback_msg name])
  /\ (~ has "getDbSession" -> ~ has "create_dbsession_pg" -> out = []).
Proof.
  pose proof (endpoint_msgs_distinct name) as [_ [_ [_ Hmsg]]].
  pose proof writes_spec as Hwrites. revert Hwrites.
  rewrite db_session_out. unfold db_session_issues.
  rewrite <- !contains_false, <- !contains_spec.
  set (writes := Str.contains_any _ func_code). intros Hwrites.
  split; [|split].
  - intros Hacq. apply orb_true_iff in Hacq. rewrite Hacq.
    replace (if writes then _ else [])
      with (if writes
               && (negb (Str.contains "except" func_code)
                   || negb (Str.contains ".rollback()" func_code))
            then [missing_rollback_msg name] else [])
      by now destruct writes.
    rewrite !single_In_iff, !single_In_last, andb_true_iff, !orb_true_iff,
      !negb_true_iff, Hwrites.
    split; split; intuition congruence.
  - intros Hacq Hins Hfin Hclo Hexc Hrol.
    assert (Hw : writes = true) by (apply Hwrites; tauto).
    now rewrite Hacq, Hfin, Hclo, Hexc, Hw, orb_true_r.
  - intros Hacq1 Hacq2. now rewrite Hacq1, Hacq2.
Qed.

End DbSession.

(** The six lines of [Sample.insert_code] yield the rollback issue alone. *)
Lemma db_session_issues_spec_witness :
  Str.Contains "create_dbsession_pg" Sample.insert_code
  /\ Str.Contains "insert" Sample.insert_code
  /\ Str.Contains "finally" Sample.insert_code
  /\ Str.Contains ".close()" Sample.insert_code
  /\ ~ Str.Contains "except" Sample.insert_code
  /\ ~ Str.Contains ".rollback()" Sample.insert_code
  /\ emitted (check_db_session "save" Sample.insert_code)
       (init Sample.insert_code (Module []))
     = [missing_rollback_msg "save"].
Proof.
  assert (H1 : Str.Contains "create_dbsession_pg" Sample.insert_code)
    by (apply contains_spec; reflexivity).
  assert (H2 : Str.Contains "insert" Sample.insert_code)
    by (apply contains_spec; reflexivity).
  assert (H3 : Str.Contains "finally" Sample.insert_code)
    by (apply contains_spec; reflexivity).
  assert (H4 : Str.Contains ".close()" Sample.insert_code)
    by (apply contains_spec; reflexivity).
  assert (H5 : ~ Str.Contains "except" Sample.insert_code)
    by (apply contains_false; reflexivity).
  assert (H6 : ~ Str.Contains ".rollback()" Sample.insert_code)
    by (apply contains_false; reflexivity).
  repeat (split; [assumption|]).
  exact (proj1 (proj2 (db_session_issues_spec
                         (init Sample.insert_code (Module []))
                         "save" Sample.insert_code))
           H1 H2 H3 H4 H5 H6).
Defined.

Lemma db_session_issue_origin (name func_code msg : string) :
  In msg (db_session_issues name func_code)
  <-> (Str.Contains "getDbSession" func_code
       \/ Str.Contains "create_dbsession_pg" func_code)
      /\ ((msg = missing_close_msg name
           /\ (~ Str.Contains "finally" func_code
               \/ ~ Str.Contains ".close()" func_code))
          \/ (msg = missing_rollback_msg name
              /\ (Str.Contains "add" func_code
                  \/ Str.Contains "update" func_code
                  \/ Str.Contains "insert" func_code)
              /\ (~ Str.Contains "except" func_code
                  \/ ~ Str.Contains ".rollback()" func_code))).
Proof.
  pose proof (writes_spec func_code) as Hwrites. revert Hwrites.
  unfold db_session_issues.
  rewrite <- !contains_false, <- !contains_spec.
  set (writes := Str.contains_any _ func_code). intros Hwrites.
  rewrite <- Hwrites, <- orb_true_iff.
  destruct (Str.contains "getDbSession" func_code
            || Str.contains "create_dbsession_pg" func_code).
  - replace (if writes then _ else [])
      with (if writes
               && (negb (Str.contains "except" func_code)
                   || negb (Str.contains ".rollback()" func_code))
            then [missing_rollback_msg name] else [])
      by now destruct writes.
    rewrite single_In_iff, single_In_last, andb_true_iff, !orb_true_iff,
      !negb_true_iff.
    intuition congruence.
  - cbn [In]. intuition congruence.
Qed.

Lemma Permutation_filter {A : Type} (p : A -> bool) (l l' : list A) :
  Permutation l l' -> Permutation (filter p l) (filter p l').
Proof.
  induction 1 as [| x l l' _ IH | x y l | l l' l'' _ IH1 _ IH2]; cbn [filter].
  - apply perm_nil.
  - destruct (p x); [now apply perm_skip | exact IH].
  - destruct (p x), (p y); try apply Permutation_refl. apply perm_swap.
  - exact (perm_trans IH1 IH2).
Qed.

Lemma flat_map_filter {A B : Type} (p : A -> bool) (g : A -> list B)
    (l : list A) :
  (forall x, p x = false -> g x = []) ->
  flat_map g l = flat_map g (filter p l).
Proof.
  intros H. induction l as [|x l IH]; [reflexivity|].
  cbn [flat_map filter]. destruct (p x) eqn:Hp; cbn [flat_map].
  - now rewrite IH.
  - now rewrite (H x Hp), IH.
Qed.

Lemma flat_map_nil {A B : Type} (g : A -> list B) (l : list A) :
  (forall x, In x l -> g x = []) -> flat_map g l = [].
Proof.
  induction l as [|x l IH]; intros H; [reflexivity|].
  cbn [flat_map]. rewrite (H x) by now left.
  apply IH. intros y Hy. apply H. now right.
Qed.

Section DbSessionRule.

Variable self : CodeReviewer.

(** [func_code] for a function on the lines [lineno] to [end_lineno] of
    the reviewed file. *)
Local Abbreviation slice_of lineno end_lineno :=
  (func_code_of (Str.splitlines (code self)) lineno end_lineno).
Local Abbreviation rule_out := (emitted check_db_session_rules self).
Local Abbreviation tree_nodes := (subnodes (NMod (tree self))).

Lemma db_session_rule_out :
  rule_out
  = flat_map (db_session_rule_issues (Str.splitlines (code self)))
      (walk (NMod (tree self))).
Proof. exact (emitted_emit _ _ _ _ (check_db_session_rules_emit self)). Qed.

(** C5: an issue is emitted by the resource lifecycle rule if and only if
    the tree holds a [FunctionDef] whose text slice, the lines [lineno] to
    [end_lineno] of the source text, holds [getDbSession] or
    [create_dbsession_pg], and the issue is either the missing-close
    issue of that function, the slice lacking [finally] or [.close()], or
    its missing-rollback issue, the slice holding one of [add], [update],
    [insert] and lacking [except] or [.rollback()].  When the only
    function of the tree has a slice with [create_dbsession_pg],
    [insert], [finally] and [.close()] but neither [except] nor
    [.rollback()], the rule emits the rollback issue alone; when no
    function of the tree has an acquisition text in its slice, the rule
    emits nothing. *)
Theorem db_session_rule_spec :
  (forall msg,
     In msg rule_out
     <-> exists name args body decorator_list returns type_params lineno
                end_lineno,
           In (NStmt (FunctionDef name args body decorator_list returns
                        type_params lineno end_lineno)) tree_nodes
           /\ (Str.Contains "getDbSession" (slice_of lineno end_lineno)
               \/ Str.Contains "create_dbsession_pg"
                    (slice_of lineno end_lineno))
           /\ ((msg = missing_close_msg name
                /\ (~ Str.Contains "finally" (slice_of lineno end_lineno)
                    \/ ~ Str.Contains ".close()"
                         (slice_of lineno end_lineno)))
               \/ (msg = missing_rollback_msg name
                   /\ (Str.Contains "add" (slice_of lineno end_lineno)
                       \/ Str.Contains "update" (slice_of lineno end_lineno)
                       \/ Str.Contains "insert"
                            (slice_of lineno end_lineno))
                   /\ (~ Str.Contains "except" (slice_of lineno end_lineno)
                       \/ ~ Str.Contains ".rollback()"
                            (slice_of lineno end_lineno)))))
  /\ (forall name args body decorator_list returns type_params lineno
             end_lineno,
        filter is_FunctionDef tree_nodes
        = [NStmt (FunctionDef name args body decorator_list returns
                    type_params lineno end_lineno)] ->
        Str.Contains "create_dbsession_pg" (slice_of lineno end_lineno) ->
        Str.Contains "insert" (slice_of lineno end_lineno) ->
        Str.Contains "finally" (slice_of lineno end_lineno) ->
        Str.Contains ".close()" (slice_of lineno end_lineno) ->
        ~ Str.Contains "except" (slice_of lineno end_lineno) ->
        ~ Str.Contains ".rollback()" (slice_of lineno end_lineno) ->
        rule_out = [missing_rollback_msg name])
  /\ ((forall name args body decorator_list returns type_params lineno
              end_lineno,
         In (NStmt (FunctionDef name args body decorator_list returns
                      type_params lineno end_lineno)) tree_nodes ->
         ~ Str.Contains "getDbSession" (slice_of lineno end_lineno)
         /\ ~ Str.Contains "create_dbsession_pg"
                (slice_of lineno end_lineno)) ->
      rule_out = []).
Proof.
  rewrite db_session_rule_out. split; [|split].
  - intros msg. rewrite in_flat_map. split.
    + intros [n [Hn Hmsg]]. apply in_walk in Hn.
      destruct n as [m | [name a b d r t l e | | | |] | x];
        cbn [db_session_rule_issues] in Hmsg; try contradiction.
      apply db_session_issue_origin in Hmsg.
      now exists name, a, b, d, r, t, l, e.
    + intros [name [a [b [d [r [t [l [e [Hn H]]]]]]]]].
      exists (NStmt (FunctionDef name a b d r t l e)).
      split; [now apply in_walk|].
      cbn [db_session_rule_issues]. now apply db_session_issue_origin.
  - intros name a b d r t l e Honly H1 H2 H3 H4 H5 H6.
    rewrite (flat_map_filter is_FunctionDef).
    + pose proof (Permutation_filter is_FunctionDef _ _
                    (walk_perm (NMod (tree self)))) as Hperm.
      rewrite Honly in Hperm. apply Permutation_sym in Hperm.
      apply Permutation_length_1_inv in Hperm. rewrite Hperm.
      cbn [flat_map db_session_rule_issues]. rewrite app_nil_r.
      rewrite <- (db_session_out self).
      now apply (proj1 (proj2 (db_session_issues_spec self name _))).
    + intros [m | [] | x] Hx; try reflexivity. discriminate Hx.
  - intros Hnone. apply flat_map_nil. intros n Hn. apply in_walk in Hn.
    destruct n as [m | [name a b d r t l e | | | |] | x];
      cbn [db_session_rule_issues]; try reflexivity.
    destruct (Hnone name a b d r t l e Hn) as [H1 H2].
    rewrite <- (db_session_out self).
    now apply (proj2 (proj2 (db_session_issues_spec self name _))).
Qed.

End DbSessionRule.

(** The file of [Sample.insert_code], whose only function is [save] on
    lines 1 to 6: the rule emits the rollback issue alone. *)
Lemma db_session_rule_spec_witness :
  filter is_FunctionDef (subnodes (NMod (Module [Sample.save_function])))
  = [NStmt Sample.save_function]
  /\ func_code_of (Str.splitlines Sample.insert_code) 1 6
     = Sample.insert_code
  /\ emitted check_db_session_rules
       (init Sample.insert_code (Module [Sample.save_function]))
     = [missing_rollback_msg "save"].
Proof.
  split; [reflexivity|]. split; [reflexivity|].
  refine (proj1 (proj2 (db_session_rule_spec
                         (init Sample.insert_code
                            (Module [Sample.save_function]))))
            "save" _ _ _ _ _ 1%Z 6%Z eq_refl _ _ _ _ _ _);
    first [ apply contains_spec; reflexivity
          | apply contains_false; reflexivity ].
Defined.

(** ** The driver *)

Lemma exec_run_checks (self : CodeReviewer) :
  exec run_checks self = emit self (all_issues (code self) (tree self)).
Proof. unfold exec. now rewrite run_checks_emit. Qed.

Lemma result_run_checks (self : CodeReviewer) :
  result run_checks self
  = (issues self ++ all_issues (code self) (tree self))%list.
Proof. unfold result. now rewrite run_checks_emit. Qed.

(** C8: on a fresh reviewer [run_checks] returns the issues of the
    function-name rule, then those of the variable-name rule, then those
    of the endpoint rule, then those of the resource lifecycle rule: the
    concatenation, in that order, of what each rule yields when it runs
    alone on a fresh reviewer of the same file. *)
Theorem run_checks_order (code : string) (t : mod_) :
  result run_checks (init code t)
  = (issues (exec check_function_names (init code t))
     ++ issues (exec check_variable_names (init code t))
     ++ issues (exec check_endpoint_rules (init code t))
     ++ issues (exec check_db_session_rules (init code t)))%list.
Proof.
  rewrite result_run_checks. unfold exec.
  rewrite check_function_names_emit, check_variable_names_emit,
    check_endpoint_rules_emit, check_db_session_rules_emit.
  reflexivity.
Qed.

(** C9: running the engine leaves the tree and the source text as they
    were, for each rule and for [run_checks]; the only effect is that
    messages are appended to the issue list. *)
Theorem run_checks_frame (self : CodeReviewer) :
  Forall (fun rule : M unit =>
            tree (exec rule self) = tree self
            /\ code (exec rule self) = code self
            /\ exists added,
                 issues (exec rule self) = (issues self ++ added)%list)
    [check_function_names; check_variable_names; check_endpoint_rules;
     check_db_session_rules]
  /\ tree (exec run_checks self) = tree self
  /\ code (exec run_checks self) = code self
  /\ exists added,
       issues (exec run_checks self) = (issues self ++ added)%list.
Proof.
  split.
  - repeat constructor; unfold exec;
      rewrite ?check_function_names_emit, ?check_variable_names_emit,
        ?check_endpoint_rules_emit, ?check_db_session_rules_emit;
      try reflexivity; eexists; reflexivity.
  - rewrite exec_run_checks. repeat split. eexists. reflexivity.
Qed.

(** C10: [run_checks] is not idempotent on a reviewer: a second call on
    the same object returns the issues of the first call followed by the
    same issues again, so it differs from the first result whenever the
    file has an issue, and there are such files; only a fresh reviewer
    returns the issues of the file once. *)
Theorem run_checks_twice (code : string) (t : mod_) :
  result run_checks (exec run_checks (init code t))
  = (result run_checks (init code t)
     ++ result run_checks (init code t))%list
  /\ (result run_checks (init code t) <> [] ->
      result run_checks (exec run_checks (init code t))
      <> result run_checks (init code t))
  /\ exists code' t',
       result run_checks (exec run_checks (init code' t'))
       <> result run_checks (init code' t').
Proof.
  assert (Htwice : forall c m,
            result run_checks (exec run_checks (init c m))
            = (result run_checks (init c m)
               ++ result run_checks (init c m))%list).
  { intros c m. rewrite !result_run_checks, exec_run_checks. reflexivity. }
  split; [apply Htwice|]. split.
  - intros Hissues Hsame. rewrite Htwice in Hsame.
    apply (f_equal (@List.length string)) in Hsame.
    rewrite length_app in Hsame.
    destruct (result run_checks (init code t)); [congruence|].
    cbn [List.length] in Hsame. lia.
  - exists Sample.foo_bar_code, Sample.foo_bar_tree.
    intros H. discriminate H.
Qed.

(** [def FooBar():] with the body [BadVar = 1] has two issues: the second
    call returns four. *)
Lemma run_checks_twice_witness :
  result run_checks (init Sample.foo_bar_code Sample.foo_bar_tree)
  = [function_name_msg "FooBar"; variable_name_msg "BadVar"]
  /\ result run_checks
       (exec run_checks (init Sample.foo_bar_code Sample.foo_bar_tree))
     = [function_name_msg "FooBar"; variable_name_msg "BadVar";
        function_name_msg "FooBar"; variable_name_msg "BadVar"]
  /\ result run_checks
       (exec run_checks (init Sample.foo_bar_code Sample.foo_bar_tree))
     <> result run_checks (init Sample.foo_bar_code Sample.foo_bar_tree).
Proof.
  pose proof (run_checks_twice Sample.foo_bar_code Sample.foo_bar_tree)
    as [Htwice [Hdiffers _]].
  split; [reflexivity|]. split; [exact Htwice|].
  apply Hdiffers. discriminate.
Defined.

(** ** The examples of the specification *)

Example is_snake_case_foo_bar : is_snake_case "foo_bar" = true.
Proof. reflexivity. Qed.

Example is_snake_case_FooBar : is_snake_case "FooBar" = false.
Proof. reflexivity. Qed.

Example is_snake_case_fooBar : is_snake_case "fooBar" = false.
Proof. reflexivity. Qed.

Example is_snake_case_x1 : is_snake_case "_x1" = true.
Proof. reflexivity. Qed.

Example is_snake_case_empty : is_snake_case "" = false.
Proof. reflexivity. Qed.

Example splitlines_crlf :
  Str.splitlines
    ("a" ++ String Str.CR (String Str.LF "b")
     ++ String Str.LF (String Str.LF ""))
  = ["a"; "b"; ""].
Proof. reflexivity. Qed.

(** [def FooBar():] with the body [BadVar = 1] yields the two naming
    issues, and twice as many on a second run. *)
Example foo_bar_run :
  result run_checks (init Sample.foo_bar_code Sample.foo_bar_tree)
  = [function_name_msg "FooBar"; variable_name_msg "BadVar"]
  /\ result run_checks
       (exec run_checks (init Sample.foo_bar_code Sample.foo_bar_tree))
     = [function_name_msg "FooBar"; variable_name_msg "BadVar";
        function_name_msg "FooBar"; variable_name_msg "BadVar"].
Proof. split; reflexivity. Qed.

(** [(A, b) = (1, 2)] yields no issue. *)
Example tuple_assign_run :
  result run_checks
    (init "(A, b) = (1, 2)"
       (Module [Assign [Sample.tuple_target]
                  (OtherExpr [Sample.constant; Sample.constant])]))
  = [].
Proof. reflexivity. Qed.

(** An endpoint that starts with an [if], holds a [try] and calls
    [jsonify] yields no issue. *)
Example good_endpoint_run :
  emitted check_endpoint_rules
    (init ""
       (Module [Sample.endpoint
                  [If Sample.constant [Sample.pass] [];
                   Try [OtherStmt [Call (Name "jsonify") [] []] [] []]
                     [OtherStmt [] [Sample.pass] []] [] []]]))
  = [].
Proof. reflexivity. Qed.

(** The whole lifecycle rule on the six lines of [Sample.insert_code]. *)
Example insert_run :
  emitted check_db_session_rules
    (init Sample.insert_code
       (Module [FunctionDef "save" (OtherExpr [OtherExpr []])
                  [Sample.assign_x; Try [Sample.pass] [] [] [Sample.pass]]
                  [] None [] 1 6]))
  = [missing_rollback_msg "save"].
Proof. reflexivity. Qed.

(** The walk is breadth first: the statement after a function comes
    before the statements inside the function. *)
Example walk_breadth_first :
  walk (NMod (Module [Sample.endpoint [Sample.pass]; Sample.assign_x]))
  = [NMod (Module [Sample.endpoint [Sample.pass]; Sample.assign_x]);
     NStmt (Sample.endpoint [Sample.pass]);
     NStmt Sample.assign_x;
     NExpr Sample.no_args; NStmt Sample.pass; NExpr Sample.route_decorator;
     NExpr (Name "x"); NExpr Sample.constant;
     NExpr (Attribute (Name "app") "route"); NExpr Sample.constant;
     NExpr (Name "app")].
Proof. reflexivity. Qed.

(** * Further properties of the code *)

(** ** How many issues a rule emits *)

Lemma filter_length_perm {A : Type} (p : A -> bool) (l l' : list A) :
  Permutation l l' ->
  List.length (filter p l) = List.length (filter p l').
Proof.
  induction 1 as [| x l l' _ IH | x y l | l l' l'' _ IH1 _ IH2]; cbn [filter].
  - reflexivity.
  - destruct (p x); cbn [List.length]; now rewrite IH.
  - destruct (p x), (p y); reflexivity.
  - now rewrite IH1.
Qed.

Lemma list_sum_map_perm {A : Type} (f : A -> nat) (l l' : list A) :
  Permutation l l' -> list_sum (map f l) = list_sum (map f l').
Proof.
  intros H. apply Permutation_list_sum. now apply Permutation_map.
Qed.

Lemma list_sum_indicator {A : Type} (p : A -> bool) (l : list A) :
  list_sum (map (fun x => if p x then 1 else 0) l)
  = List.length (filter p l).
Proof.
  induction l as [|x l IH]; [reflexivity|].
  cbn [map list_sum fold_right filter].
  fold (list_sum (map (fun x => if p x then 1 else 0) l)).
  rewrite IH. now destruct (p x).
Qed.

Lemma list_sum_map_le {A : Type} (f g : A -> nat) (l : list A) :
  (forall x, f x <= g x) -> list_sum (map f l) <= list_sum (map g l).
Proof.
  intros H. induction l as [|x l IH]; [reflexivity|].
  cbn [map list_sum fold_right]. specialize (H x).
  change (f x + list_sum (map f l) <= g x + list_sum (map g l)). lia.
Qed.

Lemma list_sum_map_ext {A : Type} (f g : A -> nat) (l : list A) :
  (forall x, f x = g x) -> list_sum (map f l) = list_sum (map g l).
Proof. intros H. f_equal. apply map_ext, H. Qed.

Lemma list_sum_map_scale {A : Type} (k : nat) (f : A -> nat) (l : list A) :
  list_sum (map (fun x => k * f x) l) = k * list_sum (map f l).
Proof.
  induction l as [|x l IH]; cbn [map list_sum fold_right]; [lia|].
  change (k * f x + list_sum (map (fun x => k * f x) l)
          = k * (f x + list_sum (map f l))).
  rewrite IH. lia.
Qed.

Lemma filter_none {A : Type} (p : A -> bool) (l : list A) :
  (forall x, In x l -> p x = false) -> filter p l = [].
Proof.
  induction l as [|x l IH]; intros H; [reflexivity|].
  cbn [filter]. rewrite (H x) by now left.
  apply IH. intros y Hy. apply H. now right.
Qed.

Lemma target_issues_length (targets : list expr) :
  List.length (flat_map target_issues targets)
  = List.length (filter invalid_Name targets).
Proof.
  induction targets as [|t targets IH]; [reflexivity|].
  cbn [flat_map filter]. rewrite length_app, IH.
  destruct t as [id | | |]; cbn [target_issues invalid_Name];
    try reflexivity.
  now destruct (is_snake_case id).
Qed.

(** X2: the naming rule emits exactly one function-name issue for each
    [FunctionDef] node of the tree with a rejected name, and exactly one
    variable-name issue for each rejected plain [Name] target of each
    [Assign] node of the tree. *)
Theorem naming_issue_counts (self : CodeReviewer) :
  List.length (emitted check_function_names self)
  = List.length (filter invalid_FunctionDef (subnodes (NMod (tree self))))
  /\ List.length (emitted check_variable_names self)
     = list_sum (map invalid_targets (subnodes (NMod (tree self)))).
Proof.
  rewrite (emitted_emit _ _ _ _ (check_function_names_emit self)).
  rewrite (emitted_emit _ _ _ _ (check_variable_names_emit self)).
  rewrite !length_flat_map.
  rewrite !(list_sum_map_perm _ _ _ (walk_perm (NMod (tree self)))).
  split.
  - rewrite <- list_sum_indicator. apply list_sum_map_ext.
    intros [m | [name a b d r t l e | | | |] | e];
      cbn [function_name_issues invalid_FunctionDef]; try reflexivity.
    now destruct (is_snake_case name).
  - apply list_sum_map_ext.
    intros [m | [| targets value | | |] | e];
      cbn [variable_name_issues invalid_targets]; try reflexivity.
    apply target_issues_length.
Qed.

Lemma endpoint_issues_length (node : node) (name : string)
    (decorator_list : list expr) (body : list stmt) :
  List.length (endpoint_issues node name decorator_list body)
  <= if existsb is_route_call decorator_list then 3 else 0.
Proof.
  unfold endpoint_issues.
  destruct (existsb is_route_call decorator_list); [|reflexivity].
  rewrite !length_app.
  destruct (negb (existsb is_Try (walk node))),
    (negb (existsb is_json_call (walk node))),
    (lacks_validation (first_stmt body)); cbn [List.length]; lia.
Qed.

(** X3: the endpoint rule emits at most three issues for each function of
    the tree with a [route] decorator, and none for a tree without such a
    function, whatever its functions hold. *)
Theorem endpoint_issue_bound (self : CodeReviewer) :
  List.length (emitted check_endpoint_rules self)
  <= 3 * List.length (filter is_endpoint (subnodes (NMod (tree self))))
  /\ ((forall n, In n (subnodes (NMod (tree self))) -> is_endpoint n = false)
      -> emitted check_endpoint_rules self = []).
Proof.
  assert (Hbound :
    List.length (emitted check_endpoint_rules self)
    <= 3 * List.length (filter is_endpoint (subnodes (NMod (tree self))))).
  { rewrite (emitted_emit _ _ _ _ (check_endpoint_rules_emit self)).
    rewrite length_flat_map.
    rewrite (list_sum_map_perm _ _ _ (walk_perm (NMod (tree self)))).
    rewrite <- list_sum_indicator, <- list_sum_map_scale.
    apply list_sum_map_le.
    intros [m | [name a b d r t l e | | | |] | e];
      cbn [endpoint_rule_issues is_endpoint List.length]; try lia.
    pose proof (endpoint_issues_length
                  (NStmt (FunctionDef name a b d r t l e)) name d b) as H.
    destruct (existsb is_route_call d); lia. }
  split; [exact Hbound|].
  intros Hnone.
  rewrite (filter_none _ _ Hnone) in Hbound. cbn [List.length] in Hbound.
  destruct (emitted check_endpoint_rules self); [reflexivity|].
  cbn [List.length] in Hbound. lia.
Qed.

(** The module of [def FooBar():] has no endpoint. *)
Lemma endpoint_issue_bound_witness :
  (forall n, In n (subnodes (NMod Sample.foo_bar_tree)) ->
             is_endpoint n = false)
  /\ emitted check_endpoint_rules
       (init Sample.foo_bar_code Sample.foo_bar_tree)
     = [].
Proof.
  assert (H : forall n, In n (subnodes (NMod Sample.foo_bar_tree)) ->
                        is_endpoint n = false)
    by (apply existsb_false_forall; reflexivity).
  split; [exact H|].
  exact (proj2 (endpoint_issue_bound
                  (init Sample.foo_bar_code Sample.foo_bar_tree)) H).
Defined.

(** ** Text slices *)

Lemma str_app_assoc (a b c : string) : (a ++ b) ++ c = a ++ (b ++ c).
Proof.
  induction a as [|x a IH]; simpl; [reflexivity|]. now rewrite IH.
Qed.

Lemma str_app_nil_r (a : string) : a ++ "" = a.
Proof. induction a as [|x a IH]; simpl; [reflexivity|]. now rewrite IH. Qed.

Lemma Contains_trans (a b c : string) :
  Str.Contains a b -> Str.Contains b c -> Str.Contains a c.
Proof.
  intros [x [y ->]] [u [v ->]]. exists (u ++ x), (y ++ v).
  now rewrite !str_app_assoc.
Qed.

Lemma Contains_nil_l (s : string) : Str.Contains "" s.
Proof. now exists "", s. Qed.

Lemma prefix_before_sep (c : ascii) (sub : string) :
  lacks_char c sub = true ->
  forall a b,
    String.prefix sub (a ++ String c b) = true -> String.prefix sub a = true.
Proof.
  induction sub as [|x sub IH]; intros Hlacks a b H.
  - now destruct a.
  - cbn [lacks_char] in Hlacks. apply andb_true_iff in Hlacks as [Hx Hsub].
    apply negb_true_iff, Ascii.eqb_neq in Hx.
    destruct a as [|d a]; cbn [String.append String.prefix] in *.
    + destruct (Ascii.ascii_dec x c); [contradiction | discriminate].
    + destruct (Ascii.ascii_dec x d); [|discriminate]. now apply (IH Hsub a b).
Qed.

(** A text without the separator that occurs in [a], the separator, [b]
    occurs in [a] or in [b]. *)
Lemma contains_split_sep (c : ascii) (sub : string) :
  lacks_char c sub = true ->
  forall a b,
    Str.contains sub (a ++ String c b) = true ->
    Str.contains sub a = true \/ Str.contains sub b = true.
Proof.
  intros Hlacks a b. induction a as [|d a IH];
    cbn [String.append Str.contains]; rewrite !orb_true_iff.
  - intros [H | H]; [left | now right].
    apply (prefix_before_sep c sub Hlacks "" b) in H. now left.
  - intros [H | H].
    + left. left. exact (prefix_before_sep c sub Hlacks (String d a) b H).
    + apply IH in H as [H | H]; [left; now right | now right].
Qed.

Lemma contains_join (c : ascii) (sub text : string) (ls : list string) :
  lacks_char c sub = true ->
  (forall l, In l ls -> Str.Contains l text) ->
  Str.contains sub (Str.join (String c "") ls) = true ->
  Str.contains sub text = true.
Proof.
  intros Hlacks. unfold Str.join.
  induction ls as [|x ls IH]; intros Hls H.
  - apply contains_spec in H as [a [b H]].
    destruct a; [|discriminate]. destruct sub; [|discriminate].
    apply contains_spec, Contains_nil_l.
  - destruct ls as [|y ls].
    + apply contains_spec. apply contains_spec in H.
      apply (Contains_trans _ _ _ H). apply Hls. now left.
    + change (String.concat (String c "") (x :: y :: ls))
        with (x ++ String c (String.concat (String c "") (y :: ls))) in H.
      apply (contains_split_sep c sub Hlacks) in H as [H | H].
      * apply contains_spec. apply contains_spec in H.
        apply (Contains_trans _ _ _ H). apply Hls. now left.
      * apply IH; [|exact H]. intros l Hl. apply Hls. now right.
Qed.

Lemma Contains_app_l (p l r : string) :
  Str.Contains l r -> Str.Contains l (p ++ r).
Proof.
  intros [a [b ->]]. exists (p ++ a), b. now rewrite str_app_assoc.
Qed.

Lemma Contains_cons (c : ascii) (l r : string) :
  Str.Contains l r -> Str.Contains l (String c r).
Proof. exact (Contains_app_l (String c "") l r). Qed.

Lemma Contains_head (x r : string) : Str.Contains x (x ++ r).
Proof. now exists "", r. Qed.

Lemma splitlines_from_Contains_len (n : nat) :
  forall s cur l,
    String.length s <= n ->
    In l (Str.splitlines_from cur s) ->
    Str.Contains l (match cur with None => "" | Some x => x end ++ s).
Proof.
  induction n as [|n IH]; intros [|c r] cur l Hlen Hl;
    cbn [String.length] in Hlen; try lia.
  1, 2: destruct cur as [x|]; cbn [Str.splitlines_from In] in Hl;
    [destruct Hl as [<- | []]; apply Contains_head | contradiction].
  cbn [Str.splitlines_from] in Hl.
  set (x := match cur with None => "" | Some x => x end) in *.
  destruct (Str.is_linebreak c).
  - assert (Hline : forall r',
              (Str.Contains l r' -> Str.Contains l r) ->
              String.length r' <= n ->
              In l (x :: Str.splitlines_from None r') ->
              Str.Contains l (x ++ String c r)).
    { intros r' Hr' Hn [<- | Hin]; [apply Contains_head|].
      apply Contains_app_l, Contains_cons, Hr'.
      exact (IH r' None l Hn Hin). }
    destruct (Ascii.eqb c Str.CR); [destruct r as [|c' r']|].
    + apply (Hline ""); [trivial | cbn; lia | exact Hl].
    + cbn [String.length] in Hlen.
      destruct (Ascii.eqb c' Str.LF).
      * apply (Hline r'); [apply Contains_cons | lia | exact Hl].
      * apply (Hline (String c' r')); [trivial | cbn; lia | exact Hl].
    + apply (Hline r); [trivial | lia | exact Hl].
  - apply (IH r _ l) in Hl; [|lia].
    cbn [String.append] in Hl. rewrite str_app_assoc in Hl. exact Hl.
Qed.

(** Every line that [splitlines] returns is a piece of the text. *)
Lemma splitlines_Contains (s l : string) :
  In l (Str.splitlines s) -> Str.Contains l s.
Proof.
  exact (splitlines_from_Contains_len (String.length s) s None l (le_n _)).
Qed.

(** A slice is a run of consecutive elements of the list. *)
Lemma slice_segment {A : Type} (l : list A) (a b : Z) :
  exists before after, l = (before ++ Str.slice l a b ++ after)%list.
Proof.
  unfold Str.slice.
  set (n := Z.of_nat (List.length l)).
  set (clamp := fun i : Z => if (i <? 0)%Z then Z.max (i + n) 0 else Z.min i n).
  exists (firstn (Z.to_nat (clamp a)) l),
    (skipn (Z.to_nat (clamp b - clamp a)) (skipn (Z.to_nat (clamp a)) l)).
  now rewrite !firstn_skipn.
Qed.

Lemma In_slice {A : Type} (l : list A) (a b : Z) (x : A) :
  In x (Str.slice l a b) -> In x l.
Proof.
  intros H. destruct (slice_segment l a b) as [before [after Hl]].
  rewrite Hl, !in_app_iff. tauto.
Qed.

Lemma func_code_contains (sub text : string) (lineno end_lineno : Z) :
  lacks_char Str.LF sub = true ->
  Str.contains sub (func_code_of (Str.splitlines text) lineno end_lineno)
  = true ->
  Str.contains sub text = true.
Proof.
  intros Hlacks. unfold func_code_of.
  apply (contains_join Str.LF sub text _ Hlacks).
  intros l Hl. apply splitlines_Contains. exact (In_slice _ _ _ _ Hl).
Qed.

Lemma db_session_issues_length (name func_code : string) :
  List.length (db_session_issues name func_code) <= 2.
Proof.
  unfold db_session_issues.
  destruct (Str.contains "getDbSession" func_code
            || Str.contains "create_dbsession_pg" func_code);
    [|cbn [List.length]; lia].
  rewrite length_app.
  destruct (negb (Str.contains "finally" func_code)
            || negb (Str.contains ".close()" func_code)),
    (Str.contains_any ["add"; "update"; "insert"] func_code),
    (negb (Str.contains "except" func_code)
     || negb (Str.contains ".rollback()" func_code));
    cbn [List.length]; lia.
Qed.

(** X4: a file whose text nowhere holds [getDbSession] or
    [create_dbsession_pg] gets no lifecycle issue, whatever its tree and
    whatever line spans its functions carry; and in any file the rule
    emits at most two issues for each [FunctionDef] node. *)
Theorem no_acquisition_no_issue (self : CodeReviewer) :
  (~ Str.Contains "getDbSession" (code self) ->
   ~ Str.Contains "create_dbsession_pg" (code self) ->
   emitted check_db_session_rules self = [])
  /\ List.length (emitted check_db_session_rules self)
     <= 2 * List.length (filter is_FunctionDef (subnodes (NMod (tree self)))).
Proof.
  rewrite (emitted_emit _ _ _ _ (check_db_session_rules_emit self)).
  split.
  - intros H1 H2. apply contains_false in H1, H2.
    induction (walk (NMod (tree self))) as [|n l IH]; [reflexivity|].
    cbn [flat_map]. rewrite IH, app_nil_r.
    destruct n as [m | [name a b d r t lineno end_lineno | | | |] | e];
      cbn [db_session_rule_issues]; try reflexivity.
    unfold db_session_issues.
    set (fc := func_code_of (Str.splitlines (code self)) lineno end_lineno).
    destruct (Str.contains "getDbSession" fc) eqn:E1.
    { apply func_code_contains in E1; [congruence | reflexivity]. }
    destruct (Str.contains "create_dbsession_pg" fc) eqn:E2.
    { apply func_code_contains in E2; [congruence | reflexivity]. }
    reflexivity.
  - rewrite length_flat_map.
    rewrite (list_sum_map_perm _ _ _ (walk_perm (NMod (tree self)))).
    rewrite <- list_sum_indicator, <- list_sum_map_scale.
    apply list_sum_map_le.
    intros [m | [name a b d r t l e | | | |] | e];
      cbn [db_session_rule_issues is_FunctionDef List.length]; try lia.
    pose proof (db_session_issues_length name
                  (func_code_of (Str.splitlines (code self)) l e)). lia.
Qed.

(** The text of [def FooBar():] holds neither acquisition text. *)
Lemma no_acquisition_no_issue_witness :
  ~ Str.Contains "getDbSession" Sample.foo_bar_code
  /\ ~ Str.Contains "create_dbsession_pg" Sample.foo_bar_code
  /\ emitted check_db_session_rules
       (init Sample.foo_bar_code Sample.foo_bar_tree)
     = [].
Proof.
  assert (H1 : ~ Str.Contains "getDbSession" Sample.foo_bar_code)
    by (apply contains_false; reflexivity).
  assert (H2 : ~ Str.Contains "create_dbsession_pg" Sample.foo_bar_code)
    by (apply contains_false; reflexivity).
  repeat (split; [assumption|]).
  exact (proj1 (no_acquisition_no_issue
                  (init Sample.foo_bar_code Sample.foo_bar_tree)) H1 H2).
Defined.

Lemma slice_nonneg {A : Type} (l : list A) (a b : Z) :
  (0 <= a)%Z -> (0 <= b)%Z ->
  Str.slice l a b = firstn (Z.to_nat (b - a)) (skipn (Z.to_nat a) l).
Proof.
  intros Ha Hb. unfold Str.slice.
  destruct (Z.ltb_spec a 0) as [|_]; [lia|].
  destruct (Z.ltb_spec b 0) as [|_]; [lia|].
  set (n := List.length l).
  destruct (Z.le_gt_cases (Z.of_nat n) a) as [Hfar | Hnear].
  - rewrite (Z.min_r a) by lia. rewrite !skipn_all2 by (fold n; lia).
    now rewrite !firstn_nil.
  - rewrite (Z.min_l a) by lia.
    destruct (Z.le_gt_cases b (Z.of_nat n)) as [Hin | Hout].
    + now rewrite (Z.min_l b) by lia.
    + rewrite (Z.min_r b) by lia.
      rewrite !firstn_all2; [reflexivity | |]; rewrite length_skipn; fold n;
        lia.
Qed.

(** X5: for any integer bounds, negative or beyond the end, the slice
    [l[a:b]] is a run of consecutive elements of [l]; for bounds that are
    not negative it is the elements from index [a] up to, not including,
    index [b], cut at the end of the list. *)
Theorem slice_span {A : Type} (l : list A) (a b : Z) :
  (exists before after, l = (before ++ Str.slice l a b ++ after)%list)
  /\ ((0 <= a)%Z -> (0 <= b)%Z ->
      Str.slice l a b = firstn (Z.to_nat (b - a)) (skipn (Z.to_nat a) l)).
Proof.
  split.
  - apply slice_segment.
  - apply slice_nonneg.
Qed.

(** Lines 2 to 3 of four lines, and the end bound 9 beyond the list. *)
Lemma slice_span_witness :
  Str.slice ["a"; "b"; "c"; "d"] 1 3 = ["b"; "c"]
  /\ Str.slice ["a"; "b"; "c"; "d"] 1 9 = ["b"; "c"; "d"].
Proof.
  split.
  - exact (proj2 (slice_span ["a"; "b"; "c"; "d"] 1 3)
             ltac:(lia) ltac:(lia)).
  - exact (proj2 (slice_span ["a"; "b"; "c"; "d"] 1 9)
             ltac:(lia) ltac:(lia)).
Defined.

Lemma splitlines_from_line (rest l : string) :
  no_linebreak l = true ->
  forall cur,
    Str.splitlines_from cur (l ++ String Str.LF rest)
    = (match cur with None => "" | Some x => x end ++ l)
      :: Str.splitlines_from None rest.
Proof.
  induction l as [|c l IH]; intros Hl cur.
  - rewrite str_app_nil_r. reflexivity.
  - cbn [no_linebreak] in Hl. apply andb_true_iff in Hl as [Hc Hl].
    apply negb_true_iff in Hc.
    cbn [String.append Str.splitlines_from]. rewrite Hc.
    rewrite (IH Hl). cbn [String.append]. now rewrite str_app_assoc.
Qed.

Lemma splitlines_from_last (l : string) :
  no_linebreak l = true ->
  forall cur,
    l <> "" \/ cur <> None ->
    Str.splitlines_from cur l
    = [match cur with None => "" | Some x => x end ++ l].
Proof.
  induction l as [|c l IH]; intros Hl cur Hcur.
  - destruct cur as [x|]; [|destruct Hcur; congruence].
    cbn [Str.splitlines_from]. now rewrite str_app_nil_r.
  - cbn [no_linebreak] in Hl. apply andb_true_iff in Hl as [Hc Hl].
    apply negb_true_iff in Hc.
    cbn [Str.splitlines_from]. rewrite Hc.
    rewrite (IH Hl) by (right; discriminate).
    cbn [String.append]. now rewrite str_app_assoc.
Qed.

Lemma splitlines_join_lines (ls : list string) :
  forallb no_linebreak ls = true ->
  (forall init, ls <> (init ++ [""])%list) ->
  Str.splitlines (Str.join (String Str.LF "") ls) = ls.
Proof.
  unfold Str.splitlines, Str.join.
  induction ls as [|x ls IH]; intros Hclean Hlast; [reflexivity|].
  cbn [forallb] in Hclean. apply andb_true_iff in Hclean as [Hx Hclean].
  destruct ls as [|y ls].
  - cbn [String.concat]. rewrite (splitlines_from_last x Hx); [reflexivity|].
    left. intros ->. now apply (Hlast []).
  - change (String.concat (String Str.LF "") (x :: y :: ls))
      with (x ++ String Str.LF (String.concat (String Str.LF "") (y :: ls))).
    rewrite (splitlines_from_line _ x Hx). cbn [String.append].
    rewrite IH; [reflexivity | exact Hclean |].
    intros init H. apply (Hlast (x :: init)). cbn [app]. now rewrite H.
Qed.

(** X6: when a text is made of lines without line boundaries joined by
    line feeds, and its last line is not empty, [splitlines] gives back
    these lines; the text slice of a function spanning the lines [lineno]
    to [end_lineno] is then these lines joined again, cut at the end of
    the file. *)
Theorem func_code_of_lines (ls : list string) (lineno end_lineno : Z) :
  forallb no_linebreak ls = true ->
  (forall init, ls <> (init ++ [""])%list) ->
  Str.splitlines (Str.join (String Str.LF "") ls) = ls
  /\ ((1 <= lineno)%Z -> (0 <= end_lineno)%Z ->
      func_code_of (Str.splitlines (Str.join (String Str.LF "") ls))
        lineno end_lineno
      = Str.join (String Str.LF "")
          (firstn (Z.to_nat (end_lineno - lineno + 1))
             (skipn (Z.to_nat (lineno - 1)) ls))).
Proof.
  intros Hclean Hlast.
  pose proof (splitlines_join_lines ls Hclean Hlast) as Hsplit.
  split; [exact Hsplit|].
  intros Hlineno Hend. unfold func_code_of.
  rewrite Hsplit, slice_nonneg by lia.
  do 2 f_equal. lia.
Qed.

(** The three lines [def f():], [    x = 1], [    return x], and the span
    of lines 2 to 3. *)
Lemma func_code_of_lines_witness :
  forallb no_linebreak ["def f():"; "    x = 1"; "    return x"] = true
  /\ func_code_of
       (Str.splitlines
          (Str.join (String Str.LF "")
             ["def f():"; "    x = 1"; "    return x"]))
       2 3
     = Str.join (String Str.LF "") ["    x = 1"; "    return x"].
Proof.
  split; [reflexivity|].
  refine (proj2 (func_code_of_lines
                   ["def f():"; "    x = 1"; "    return x"] 2 3
                   eq_refl _)
            ltac:(lia) ltac:(lia)).
  intros [|a [|b [|c [|d init]]]] H; discriminate H.
Defined.

(** ** The rules never read the issue list *)

(** X7: what a rule emits depends on the file only, not on the issues
    that are already in the list; the naming and endpoint rules depend on
    the tree only, not on the source text. *)
Theorem rules_read_the_file_only (self : CodeReviewer) (other : string) :
  Forall (fun rule : M unit =>
            emitted rule self
            = emitted rule (init (code self) (tree self)))
    [check_function_names; check_variable_names; check_endpoint_rules;
     check_db_session_rules]
  /\ Forall (fun rule : M unit =>
               emitted rule self = emitted rule (init other (tree self)))
       [check_function_names; check_variable_names; check_endpoint_rules].
Proof.
  split; repeat constructor;
    rewrite ?(emitted_emit _ _ _ _ (check_function_names_emit _)),
      ?(emitted_emit _ _ _ _ (check_variable_names_emit _)),
      ?(emitted_emit _ _ _ _ (check_endpoint_rules_emit _)),
      ?(emitted_emit _ _ _ _ (check_db_session_rules_emit _));
    reflexivity.
Qed.

Lemma run_times_file (n : nat) (self : CodeReviewer) :
  code (run_times n self) = code self /\ tree (run_times n self) = tree self.
Proof.
  induction n as [|n [IHc IHt]]; [now split|].
  cbn [run_times]. rewrite exec_run_checks. cbn [emit code tree]. now split.
Qed.

(** X8: [run_checks] returns the issue list of the reviewer itself, which
    is the list it had before followed by what a fresh reviewer of the
    same file returns; after [n] calls the list holds the earlier issues
    followed by [n] copies of the issues of the file. *)
Theorem run_checks_accumulates (self : CodeReviewer) (n : nat) :
  result run_checks self = issues (exec run_checks self)
  /\ result run_checks self
     = (issues self
        ++ result run_checks (init (code self) (tree self)))%list
  /\ issues (run_times n self)
     = (issues self
        ++ List.concat
             (repeat (result run_checks (init (code self) (tree self))) n))%list.
Proof.
  rewrite !result_run_checks, exec_run_checks.
  cbn [init emit issues code tree app].
  repeat split.
  induction n as [|n IH]; cbn [run_times repeat List.concat].
  - now rewrite app_nil_r.
  - rewrite exec_run_checks. cbn [emit issues].
    destruct (run_times_file n self) as [-> ->]. rewrite IH.
    rewrite <- app_assoc. f_equal.
    clear IH. induction n as [|n IH]; cbn [repeat List.concat].
    + now rewrite app_nil_r.
    + now rewrite <- app_assoc, IH.
Qed.

(** ** The order of the walk *)

Lemma children_size (todo : list node) :
  total_size (flat_map iter_child_nodes todo) + List.length todo
  = total_size todo.
Proof.
  induction todo as [|n todo IH]; [reflexivity|].
  cbn [flat_map List.length]. rewrite total_size_app.
  change (total_size (n :: todo)) with (node_size n + total_size todo).
  rewrite (node_size_children n). lia.
Qed.

(** The nodes in the queue are yielded before any of their children. *)
Lemma walk_loop_level (todo : list node) :
  forall queue turns,
    total_size (todo ++ queue) <= turns ->
    walk_loop turns (todo ++ queue)
    = (todo
       ++ walk_loop (turns - List.length todo)
            (queue ++ flat_map iter_child_nodes todo))%list.
Proof.
  induction todo as [|n todo IH]; intros queue turns Hsize.
  - cbn [app List.length flat_map]. now rewrite Nat.sub_0_r, app_nil_r.
  - cbn [app] in *.
    change (total_size (n :: todo ++ queue))
      with (node_size n + total_size (todo ++ queue)) in Hsize.
    rewrite (node_size_children n) in Hsize.
    destruct turns as [|turns]; [lia|].
    cbn [walk_loop List.length flat_map Nat.sub]. f_equal.
    rewrite <- app_assoc, IH.
    + now rewrite <- app_assoc.
    + rewrite !total_size_app in *. lia.
Qed.

(** X9: the walk is breadth first: after the module itself come its
    top-level statements in source order, and only then the nodes inside
    them, each once; so the function-name issues of the top-level
    functions come first, in source order, before those of nested
    functions and methods. *)
Theorem walk_top_level_first (body : list stmt) :
  exists deeper,
    walk (NMod (Module body))
    = (NMod (Module body) :: map NStmt body ++ deeper)%list
    /\ Permutation deeper
         (flat_map subnodes (flat_map iter_child_nodes (map NStmt body)))
    /\ forall code,
         emitted check_function_names (init code (Module body))
         = (flat_map function_name_issues (map NStmt body)
            ++ flat_map function_name_issues deeper)%list.
Proof.
  set (todo := map NStmt body).
  exists (walk_loop (total_size todo - List.length todo)
            (flat_map iter_child_nodes todo)).
  assert (Hwalk :
    walk (NMod (Module body))
    = (NMod (Module body) :: todo
       ++ walk_loop (total_size todo - List.length todo)
            (flat_map iter_child_nodes todo))%list).
  { unfold walk. cbn [node_size walk_loop iter_child_nodes app]. f_equal.
    rewrite <- total_size_stmts. fold todo.
    pose proof (walk_loop_level todo [] (total_size todo)) as Hlevel.
    rewrite app_nil_r in Hlevel. cbn [app] in Hlevel.
    now apply Hlevel. }
  split; [exact Hwalk|]. split.
  - apply walk_loop_perm. pose proof (children_size todo). lia.
  - intros code.
    rewrite (emitted_emit _ _ _ _ (check_function_names_emit _)).
    cbn [init tree]. rewrite Hwalk. cbn [flat_map function_name_issues app].
    now rewrite flat_map_app.
Qed.

(** ** The command line *)

Section CliProperties.

Variable Path : string -> string.
Variable read_text : string -> option string.
Variable ast_parse : string -> option mod_.

Local Abbreviation review_file := (Cli.review_file read_text ast_parse).
Local Abbreviation review_all := (Cli.review_all Path read_text ast_parse).
Local Abbreviation main := (Cli.main Path read_text ast_parse).
Local Abbreviation file_issues := (Cli.file_issues read_text ast_parse).
Local Abbreviation report := (Cli.report read_text ast_parse).

(** The file passes: it can be read and parsed and has no issue. *)
Local Abbreviation passes filepath :=
  (match file_issues filepath with Some [] => true | _ => false end).

Lemma print_issues_out (issues out : list string) :
  Cli.print_issues issues out
  = (inl tt, (out ++ map (String.append "  ") issues)%list).
Proof.
  revert out. induction issues as [|issue issues IH]; intros out.
  - cbn [Cli.print_issues map]. unfold Cli.pure. now rewrite app_nil_r.
  - cbn [Cli.print_issues map]. unfold Cli.and_then, Cli.print.
    rewrite IH, <- app_assoc. reflexivity.
Qed.

Lemma review_file_out (filepath : string) (issues out : list string) :
  file_issues filepath = Some issues ->
  review_file filepath out
  = (inl (match issues with [] => true | _ => false end),
     List.app out
       match issues with
       | [] => [filepath ++ " passed all checks."]
       | _ => ("Issues found in " ++ filepath ++ ":")
              :: map (String.append "  ") issues
       end).
Proof.
  unfold Cli.file_issues, Cli.review_file. intros H.
  destruct (read_text filepath) as [code|]; [|discriminate].
  unfold Cli.and_then at 1. cbn [Cli.try_call Cli.pure].
  destruct (ast_parse code) as [parsed|]; [|discriminate].
  injection H as H. unfold Cli.and_then at 1. cbn [Cli.try_call Cli.pure].
  rewrite H. destruct issues as [|issue issues]; [reflexivity|].
  unfold Cli.and_then, Cli.print. rewrite print_issues_out.
  unfold Cli.pure. now rewrite <- app_assoc.
Qed.

Lemma review_file_fails (filepath : string) (out : list string) :
  file_issues filepath = None ->
  exists e, review_file filepath out = (inr e, out)
            /\ (e = Cli.ReadError \/ e = Cli.ParseError).
Proof.
  unfold Cli.file_issues, Cli.review_file. intros H.
  destruct (read_text filepath) as [code|].
  - unfold Cli.and_then at 1. cbn [Cli.try_call Cli.pure].
    destruct (ast_parse code) as [parsed|]; [discriminate|].
    exists Cli.ParseError. split; [reflexivity | now right].
  - exists Cli.ReadError. split; [reflexivity | now left].
Qed.

Lemma report_out (filepath : string) (issues out : list string) :
  file_issues filepath = Some issues ->
  review_file filepath out
  = (inl (match issues with [] => true | _ => false end),
     (out ++ report filepath)%list).
Proof.
  intros H. unfold Cli.report.
  now rewrite (review_file_out _ _ [] H), (review_file_out _ _ out H).
Qed.

Lemma review_all_out (file_args : list string) :
  Forall (fun file_arg => file_issues (Path file_arg) <> None) file_args ->
  forall all_passed out,
    review_all file_args all_passed out
    = (inl (all_passed
            && forallb (fun file_arg => passes (Path file_arg)) file_args),
       (out ++ flat_map (fun file_arg => report (Path file_arg)) file_args)
       %list).
Proof.
  induction 1 as [|file_arg file_args Hok _ IH]; intros all_passed out.
  - cbn [Cli.review_all forallb flat_map]. unfold Cli.pure.
    now rewrite andb_true_r, app_nil_r.
  - cbn [Cli.review_all forallb flat_map]. unfold Cli.and_then.
    destruct (file_issues (Path file_arg)) as [issues|] eqn:Hissues;
      [|congruence].
    rewrite (report_out _ _ out Hissues), IH, <- app_assoc.
    destruct issues, all_passed; reflexivity.
Qed.

Lemma review_all_abort (before : list string) (bad : string)
    (after : list string) :
  Forall (fun file_arg => file_issues (Path file_arg) <> None) before ->
  file_issues (Path bad) = None ->
  forall all_passed out,
  exists e,
    review_all (before ++ bad :: after) all_passed out
    = (inr e,
       (out ++ flat_map (fun file_arg => report (Path file_arg)) before)
       %list)
    /\ (e = Cli.ReadError \/ e = Cli.ParseError).
Proof.
  intros Hbefore Hbad.
  induction Hbefore as [|file_arg before Hok _ IH]; intros all_passed out.
  - cbn [app Cli.review_all flat_map]. unfold Cli.and_then.
    destruct (review_file_fails _ out Hbad) as [e [-> He]].
    exists e. now rewrite app_nil_r.
  - cbn [app Cli.review_all flat_map]. unfold Cli.and_then.
    destruct (file_issues (Path file_arg)) as [issues|] eqn:Hissues;
      [|congruence].
    rewrite (report_out _ _ out Hissues).
    destruct (IH (if negb match issues with [] => true | _ => false end
                  then false else all_passed)
                (out ++ report (Path file_arg))%list) as [e [-> He]].
    exists e. now rewrite <- app_assoc.
Qed.

(** X10: for a file that can be read and parsed, [review_file] returns
    true exactly when the file has no issue, keeps what was printed
    before, and prints one line more than the file has issues: a first
    line that names the file, then each issue in order behind two
    spaces. *)
Theorem review_file_report (filepath : string) (issues out : list string) :
  file_issues filepath = Some issues ->
  exists lines,
    review_file filepath out
    = (inl (match issues with [] => true | _ => false end),
       (out ++ lines)%list)
    /\ List.length lines = S (List.length issues)
    /\ nth_error lines 0
       = Some (match issues with
               | [] => filepath ++ " passed all checks."
               | _ => "Issues found in " ++ filepath ++ ":"
               end)
    /\ forall i issue,
         nth_error issues i = Some issue ->
         nth_error lines (S i) = Some ("  " ++ issue).
Proof.
  intros H. eexists. split; [exact (review_file_out _ _ out H)|].
  destruct issues as [|issue0 issues].
  - repeat split. intros [|i] issue Hi; discriminate Hi.
  - cbn [List.length nth_error]. rewrite length_map. repeat split.
    intros i issue Hi. change (issue0 :: issues) with ([issue0] ++ issues)%list.
    cbn [app]. now rewrite nth_error_map, Hi.
Qed.

(** X11: with fewer than two arguments [main] prints the usage line and
    exits with status 1.  With file arguments that can all be read and
    parsed it reviews every file, in order, also after a file failed: the
    output is the reports of all files one after the other, and the exit
    status is 0 when every file is free of issues and 1 otherwise. *)
Theorem main_batch (prog : string) (file_args out : list string) :
  (forall argv,
     List.length argv < 2 ->
     main argv out = (inr (Cli.SystemExit 1), (out ++ [Cli.usage])%list))
  /\ (file_args <> [] ->
      Forall (fun file_arg => file_issues (Path file_arg) <> None)
        file_args ->
      snd (main (prog :: file_args) out)
      = (out ++ flat_map (fun file_arg => report (Path file_arg)) file_args)
        %list
      /\ (Cli.exit_status (fst (main (prog :: file_args) out)) = 0%Z
          <-> Forall (fun file_arg => file_issues (Path file_arg) = Some [])
                file_args)
      /\ (Cli.exit_status (fst (main (prog :: file_args) out)) = 0%Z
          \/ Cli.exit_status (fst (main (prog :: file_args) out)) = 1%Z)).
Proof.
  split.
  - intros argv Hargv. unfold Cli.main.
    apply Nat.ltb_lt in Hargv. rewrite Hargv. reflexivity.
  - intros Hfiles Hok. unfold Cli.main.
    destruct file_args as [|file_arg rest]; [congruence|].
    cbn [List.length Nat.ltb Nat.leb skipn]. unfold Cli.and_then.
    rewrite (review_all_out _ Hok). cbn [andb].
    set (all := forallb _ _).
    assert (Hall : all = true
                   <-> Forall (fun file_arg =>
                                 file_issues (Path file_arg) = Some [])
                         (file_arg :: rest)).
    { unfold all. rewrite forallb_forall, Forall_forall.
      split; intros H x Hx; specialize (H x Hx).
      - destruct (file_issues (Path x)) as [[|]|]; congruence.
      - now rewrite H. }
    destruct all; cbn [negb Cli.raise Cli.pure fst snd Cli.exit_status].
    + split; [reflexivity|]. split; [tauto | now left].
    + split; [reflexivity|]. split; [|now right].
      split; intros H; [discriminate H|].
      apply Hall in H. discriminate H.
Qed.

(** X12: when a file cannot be read or parsed, the exception leaves
    [main]: the reports of the files before it stay printed, nothing is
    printed for it, the files after it are not reviewed, and the exit
    status is 1. *)
Theorem main_abort (prog : string) (before : list string) (bad : string)
    (after out : list string) :
  Forall (fun file_arg => file_issues (Path file_arg) <> None) before ->
  file_issues (Path bad) = None ->
  exists e,
    main (prog :: before ++ bad :: after) out
    = (inr e,
       (out ++ flat_map (fun file_arg => report (Path file_arg)) before)
       %list)
    /\ (e = Cli.ReadError \/ e = Cli.ParseError)
    /\ Cli.exit_status (A := unit) (inr e) = 1%Z.
Proof.
  intros Hbefore Hbad. unfold Cli.main.
  replace (List.length (prog :: before ++ bad :: after) <? 2)%nat with false
    by (symmetry; apply Nat.ltb_ge; cbn [List.length];
        rewrite length_app; cbn [List.length]; lia).
  cbn [skipn]. unfold Cli.and_then.
  destruct (review_all_abort before bad after Hbefore Hbad true out)
    as [e [-> He]].
  exists e. split; [reflexivity|]. split; [exact He|].
  destruct He as [-> | ->]; reflexivity.
Qed.

End CliProperties.

(** [foo_bar.py] has two issues: three lines are printed. *)
Lemma review_file_report_witness :
  Cli.file_issues SampleFiles.read_text SampleFiles.ast_parse "foo_bar.py"
  = Some [function_name_msg "FooBar"; variable_name_msg "BadVar"]
  /\ exists lines,
       Cli.review_file SampleFiles.read_text SampleFiles.ast_parse
         "foo_bar.py" []
       = (inl false, lines)
       /\ List.length lines = 3
       /\ nth_error lines 0 = Some "Issues found in foo_bar.py:"
       /\ forall i issue,
            nth_error [function_name_msg "FooBar"; variable_name_msg "BadVar"]
              i = Some issue ->
            nth_error lines (S i) = Some ("  " ++ issue).
Proof.
  split; [reflexivity|].
  exact (review_file_report SampleFiles.read_text SampleFiles.ast_parse
           "foo_bar.py" _ [] eq_refl).
Defined.

(** [clean.py] and [foo_bar.py] are both reviewed. *)
Lemma main_batch_witness :
  Forall (fun file_arg =>
            Cli.file_issues SampleFiles.read_text SampleFiles.ast_parse
              (SampleFiles.Path file_arg) <> None)
    ["clean.py"; "foo_bar.py"]
  /\ snd (Cli.main SampleFiles.Path SampleFiles.read_text
            SampleFiles.ast_parse ["prog"; "clean.py"; "foo_bar.py"] [])
     = ["clean.py passed all checks."; "Issues found in foo_bar.py:";
        "  " ++ function_name_msg "FooBar";
        "  " ++ variable_name_msg "BadVar"].
Proof.
  assert (Hok : Forall (fun file_arg =>
            Cli.file_issues SampleFiles.read_text SampleFiles.ast_parse
              (SampleFiles.Path file_arg) <> None)
            ["clean.py"; "foo_bar.py"])
    by (repeat constructor; intros H; discriminate H).
  split; [exact Hok|].
  exact (proj1 (proj2 (main_batch SampleFiles.Path SampleFiles.read_text
                         SampleFiles.ast_parse "prog"
                         ["clean.py"; "foo_bar.py"] [])
                  ltac:(discriminate) Hok)).
Defined.

(** [missing.py] does not exist: [foo_bar.py] after it is not reviewed. *)
Lemma main_abort_witness :
  Cli.file_issues SampleFiles.read_text SampleFiles.ast_parse
    (SampleFiles.Path "missing.py") = None
  /\ exists e,
       Cli.main SampleFiles.Path SampleFiles.read_text SampleFiles.ast_parse
         ("prog" :: ["clean.py"] ++ "missing.py" :: ["foo_bar.py"]) []
       = (inr e, ["clean.py passed all checks."])
       /\ (e = Cli.ReadError \/ e = Cli.ParseError)
       /\ Cli.exit_status (A := unit) (inr e) = 1%Z.
Proof.
  split; [reflexivity|].
  refine (main_abort SampleFiles.Path SampleFiles.read_text
            SampleFiles.ast_parse "prog" ["clean.py"] "missing.py"
            ["foo_bar.py"] [] _ eq_refl).
  repeat constructor. intros H. discriminate H.
Defined.

(** The whole run on the sample directory. *)
Example main_run :
  Cli.main SampleFiles.Path SampleFiles.read_text SampleFiles.ast_parse
    ["prog"; "clean.py"; "foo_bar.py"] []
  = (inr (Cli.SystemExit 1),
     ["clean.py passed all checks."; "Issues found in foo_bar.py:";
      "  " ++ function_name_msg "FooBar";
      "  " ++ variable_name_msg "BadVar"])
  /\ Cli.main SampleFiles.Path SampleFiles.read_text SampleFiles.ast_parse
       ["prog"; "clean.py"] []
     = (inl tt, ["clean.py passed all checks."])
  /\ Cli.main SampleFiles.Path SampleFiles.read_text SampleFiles.ast_parse
       ["prog"] []
     = (inr (Cli.SystemExit 1), [Cli.usage]).
Proof. repeat split. Qed.
